(** * A shallow embedding of the channel layer

    The Python sources embedded here are
    - [core/backends/base.py] and [core/backends/memory.py] (module [Backends]),
    - [core/middleware/rate_limit.py] (module [RateLimit]),
    - [core/typed.py], [core/middleware/auth.py], [core/middleware/logging.py],
      [core/middleware/validation.py] (module [Pipeline]),
    - [core/middleware/base.py] and the statements the two consumers share
      (module [Dispatch]),
    - [core/consumer/base.py] (module [CoreConsumer]) and
      [fastapi_channel/consumer/base.py] (module [ChannelConsumer]).

    Python dicts and sets are stdpp finite maps and sets, Python [int] is [Z],
    Python [float] is the kernel's binary64 [float], a Python [str] is the
    string of its UTF-8 bytes, and a call that may raise returns an
    [Outcome]. The body of an [async with self._lock] runs without
    interleaving, so it is one state transformer here; a clock reading is an
    argument of the function that takes it, or the next value of the clock of
    the world. The properties follow the definitions, one module per part. *)

From Stdlib Require Import ZArith Ascii PrimFloat FloatOps SpecFloat FloatAxioms.
From stdpp Require Import gmap strings pretty list.

Set Warnings "-inexact-float".

(** ** Python values, exceptions and outcomes *)

Module Py.

(** Built-in exception classes met in the embedded code. *)
Inductive Builtin : Type :=
| JSONDecodeError (text : string)
| TypeError
| ValueError
| OverflowError
| ZeroDivisionError
| AttributeError
| TimeoutError.

(** A call returns a value or raises. *)
Inductive Outcome (E A : Type) : Type :=
| Return (a : A)
| Raise (e : E).
Arguments Return {E A} a.
Arguments Raise {E A} e.

(** The enum [MessagePriority] of [core/typed.py]; it is declared here
    because a member of the enum is a Python value like any other. *)
Inductive MessagePriority : Type :=
| HIGH
| NORMAL
| LOW.

(** Values as [json.loads] produces them, plus [PyPriority] for a member of
    [MessagePriority] and [PyObject] for any other Python object (a set,
    bytes, a datetime, ...), named by its class, with whether [hash] accepts
    it (a set: no; bytes, a datetime: yes). [json.dumps] refuses both. An
    object is taken to be truthy, equal to itself only, and without
    arithmetic or ordering with numbers. *)
#[warnings="-register-all"]
Inductive PyValue : Type :=
| PyNone
| PyBool (b : bool)
| PyInt (z : Z)
| PyFloat (f : float)
| PyStr (s : string)
| PyList (l : list PyValue)
| PyDict (d : list (string * PyValue))
| PyPriority (p : MessagePriority)
| PyObject (tag : string) (hashable : bool).

(** [hash(value)] raises TypeError: the value is a list, a dict, or an
    object that cannot be hashed. *)
Definition unhashable (v : PyValue) : bool :=
  match v with
  | PyList _ | PyDict _ => true
  | PyObject _ hashable => negb hashable
  | PyNone | PyBool _ | PyInt _ | PyFloat _ | PyStr _ | PyPriority _ => false
  end.

(** [d.get(key)] on the items of a dict. *)
Fixpoint dict_get (key : string) (d : list (string * PyValue)) : option PyValue :=
  match d with
  | [] => None
  | (k, v) :: d' => if String.eqb k key then Some v else dict_get key d'
  end.

(** [int(x)] for a float: truncation toward zero; [int(inf)] raises
    OverflowError and [int(nan)] raises ValueError. *)
Definition py_int (x : float) : Outcome Builtin Z :=
  match Prim2SF x with
  | S754_zero _ => Return 0%Z
  | S754_finite s m e =>
      let v := if (0 <=? e)%Z then (Z.pos m * 2 ^ e)%Z else (Z.pos m / 2 ^ (- e))%Z in
      Return (if s then (- v)%Z else v)
  | S754_infinity _ => Raise OverflowError
  | S754_nan => Raise ValueError
  end.

(** [x] is neither an infinity nor a NaN. *)
Definition float_finite (x : float) : bool :=
  match Prim2SF x with
  | S754_zero _ | S754_finite _ _ _ => true
  | _ => false
  end.

(** [float(n)]: the int rounded to the nearest binary64 (ties to even);
    OverflowError when that is beyond the largest float. *)
Definition py_float (n : Z) : Outcome Builtin float :=
  match binary_normalize prec emax n 0 false with
  | S754_infinity _ => Raise OverflowError
  | x => Return (SF2Prim x)
  end.

(** The exact quotient of two ints, the divisor not zero, rounded once to
    the nearest binary64 (ties to even): [None] when that is beyond the
    largest float; a quotient that is zero, or rounds to zero, keeps its
    sign. *)
Definition rounded_quotient (a b : Z) : option spec_float :=
  match a with
  | 0%Z => Some (S754_zero (b <? 0)%Z)
  | _ =>
      match SFdiv prec emax (S754_finite (a <? 0)%Z (Z.to_pos (Z.abs a)) 0)
              (S754_finite (b <? 0)%Z (Z.to_pos (Z.abs b)) 0) with
      | S754_infinity _ => None
      | q => Some q
      end
  end.

(** [a / b] on ints, true division: ZeroDivisionError on a zero divisor,
    else the exact quotient rounded once, OverflowError when the rounded
    quotient is too large for a float. *)
Definition py_truediv (a b : Z) : Outcome Builtin float :=
  if (b =? 0)%Z then Raise ZeroDivisionError
  else
    match rounded_quotient a b with
    | Some q => Return (SF2Prim q)
    | None => Raise OverflowError
    end.

(** Truthiness of an [Optional[str]]: [None] and the empty string are falsy. *)
Definition truthy (s : option string) : bool :=
  match s with
  | Some s' => negb (String.eqb s' "")
  | None => false
  end.

End Py.
Import Py.

(** ** core/backends: group index, channel names, queues, registry *)

Module Backends.

(** One registry entry, as [registry_add_connection] builds it. *)
Record ConnectionData : Type := mkConnectionData {
  cd_user_id : option string;
  cd_metadata : list (string * PyValue);
  cd_groups : gset string;
  cd_heartbeat_timeout : float
}.

(** [MemoryBackend], with the attributes of [BaseBackend] it inherits. *)
Record MemoryBackend : Type := mkBackend {
  groups : gmap string (gset string);
  subscriptions : gmap string (gset string);
  _channel_counter : Z;
  channels : gmap string (list PyValue);
  _registry_connections : gset string;
  _registry_connection_data : gmap string ConnectionData;
  _registry_user_connections : gmap string (gset string)
}.

Definition new_backend : MemoryBackend :=
  mkBackend ∅ ∅ 0 ∅ ∅ ∅ ∅.

Definition set_groups (g : gmap string (gset string)) (b : MemoryBackend) : MemoryBackend :=
  mkBackend g (subscriptions b) (_channel_counter b) (channels b)
    (_registry_connections b) (_registry_connection_data b) (_registry_user_connections b).

Definition set_channel_counter (n : Z) (b : MemoryBackend) : MemoryBackend :=
  mkBackend (groups b) (subscriptions b) n (channels b)
    (_registry_connections b) (_registry_connection_data b) (_registry_user_connections b).

Definition set_channels (c : gmap string (list PyValue)) (b : MemoryBackend) : MemoryBackend :=
  mkBackend (groups b) (subscriptions b) (_channel_counter b) c
    (_registry_connections b) (_registry_connection_data b) (_registry_user_connections b).

Definition set_registry (cs : gset string) (cd : gmap string ConnectionData)
    (uc : gmap string (gset string)) (b : MemoryBackend) : MemoryBackend :=
  mkBackend (groups b) (subscriptions b) (_channel_counter b) (channels b) cs cd uc.

(** *** Group index ([BaseBackend.group_add], [group_discard], [group_channels]) *)

(** [if group not in self.groups: self.groups[group] = set()] and then
    [self.groups[group].add(channel)]. *)
Definition group_add (group channel : string) (b : MemoryBackend) : MemoryBackend :=
  let gs := match groups b !! group with
            | None => <[group := ∅]> (groups b)
            | Some _ => groups b
            end in
  set_groups (alter (λ s, s ∪ {[channel]}) group gs) b.

(** [if group in self.groups:] discard the channel, then
    [if not self.groups[group]: del self.groups[group]]. *)
Definition group_discard (group channel : string) (b : MemoryBackend) : MemoryBackend :=
  match groups b !! group with
  | None => b
  | Some _ =>
      let gs := alter (λ s, s ∖ {[channel]}) group (groups b) in
      if decide (gs !! group = Some ∅) then set_groups (delete group gs) b
      else set_groups gs b
  end.

(** [self.groups.get(group, set()).copy()]. *)
Definition _get_group_channels (group : string) (b : MemoryBackend) : gset string :=
  default ∅ (groups b !! group).

Definition group_channels (group : string) (b : MemoryBackend) : gset string :=
  _get_group_channels group b.

Inductive GroupOp : Type :=
| GroupAdd (group channel : string)
| GroupDiscard (group channel : string).

Definition group_step (b : MemoryBackend) (op : GroupOp) : MemoryBackend :=
  match op with
  | GroupAdd g c => group_add g c b
  | GroupDiscard g c => group_discard g c b
  end.

Definition run_group_ops (ops : list GroupOp) (b : MemoryBackend) : MemoryBackend :=
  foldl group_step b ops.

(** No key of the index holds an empty set. *)
Definition no_empty_group (b : MemoryBackend) : Prop :=
  ∀ g s, groups b !! g = Some s → s ≠ ∅.

(** *** Channel queues ([MemoryBackend.get_message], [receive]) *)

(** How an awaited call ends: it completes, returning or raising, or it
    stays pending for ever. *)
Inductive Awaited (A : Type) : Type :=
| Done (r : Outcome Builtin A)
| Pending.
Arguments Done {A} r.
Arguments Pending {A}.

(** [timeout <= 0] for a timeout that is not [None]. *)
Definition no_time_left (timeout : option float) : bool :=
  match timeout with
  | Some t => PrimFloat.leb t 0
  | None => false
  end.

(** The wait has no end of its own: the timeout is [None] or infinite. *)
Definition waits_for_ever (timeout : option float) : bool :=
  match timeout with
  | Some t => PrimFloat.eqb t infinity
  | None => true
  end.

(** [asyncio.wait_for(queue.get(), timeout=timeout)] on a queue holding
    [queue]; [arrivals] are the items other tasks put on it before the wait
    ends. With a timeout that is zero or negative, [wait_for] cancels the
    [queue.get()] before it has run and raises TimeoutError, whatever the
    queue holds, and nothing leaves the queue. Otherwise the first item
    available is returned and leaves the queue; with none, the wait raises
    TimeoutError when its timeout elapses, and stays pending when the
    timeout is [None] or infinite. *)
Definition wait_for_get (queue arrivals : list PyValue) (timeout : option float)
    : Awaited PyValue * list PyValue :=
  if no_time_left timeout then (Done (Raise TimeoutError), queue ++ arrivals)
  else
    match queue ++ arrivals with
    | item :: rest => (Done (Return item), rest)
    | [] =>
        if waits_for_ever timeout then (Pending, [])
        else (Done (Raise TimeoutError), [])
    end.

(** [if channel not in self.channels: return None], else the wait above. *)
Definition get_message (channel : string) (timeout : option float)
    (arrivals : list PyValue) (b : MemoryBackend) : Awaited PyValue * MemoryBackend :=
  match channels b !! channel with
  | None => (Done (Return PyNone), b)
  | Some queue =>
      let '(r, queue') := wait_for_get queue arrivals timeout in
      (r, set_channels (<[channel := queue']> (channels b)) b)
  end.

Definition receive (channel : string) (timeout : option float)
    (arrivals : list PyValue) (b : MemoryBackend) : Awaited PyValue * MemoryBackend :=
  get_message channel timeout arrivals b.

(** *** Connection registry ([MemoryBackend.registry_*]) *)

(** [self._registry_user_connections[user_id].add(connection_id)] on the
    [defaultdict(set)]. *)
Definition user_index_add (user_id connection_id : string)
    (uc : gmap string (gset string)) : gmap string (gset string) :=
  <[user_id := default ∅ (uc !! user_id) ∪ {[connection_id]}]> uc.

(** [if user_id in index:] discard the id, then delete the key when its set
    is empty. *)
Definition user_index_discard (user_id connection_id : string)
    (uc : gmap string (gset string)) : gmap string (gset string) :=
  match uc !! user_id with
  | None => uc
  | Some s =>
      if decide (s ∖ {[connection_id]} = ∅) then delete user_id uc
      else <[user_id := s ∖ {[connection_id]}]> uc
  end.

Definition registry_add_connection (connection_id : string) (user_id : option string)
    (metadata : list (string * PyValue)) (grps : gset string) (heartbeat_timeout : float)
    (b : MemoryBackend) : MemoryBackend :=
  let cs := _registry_connections b ∪ {[connection_id]} in
  let cd := <[connection_id := mkConnectionData user_id metadata grps heartbeat_timeout]>
              (_registry_connection_data b) in
  let uc := match user_id with
            | Some u =>
                if truthy user_id
                then user_index_add u connection_id (_registry_user_connections b)
                else _registry_user_connections b
            | None => _registry_user_connections b
            end in
  set_registry cs cd uc b.

Definition registry_remove_connection (connection_id : string) (user_id : option string)
    (b : MemoryBackend) : MemoryBackend :=
  let cs := _registry_connections b ∖ {[connection_id]} in
  let cd := delete connection_id (_registry_connection_data b) in
  let uc := match user_id with
            | Some u =>
                if truthy user_id
                then user_index_discard u connection_id (_registry_user_connections b)
                else _registry_user_connections b
            | None => _registry_user_connections b
            end in
  set_registry cs cd uc b.

Definition registry_update_groups (connection_id : string) (grps : gset string)
    (b : MemoryBackend) : MemoryBackend :=
  let cd := alter (λ d, mkConnectionData (cd_user_id d) (cd_metadata d) grps
                          (cd_heartbeat_timeout d))
              connection_id (_registry_connection_data b) in
  set_registry (_registry_connections b) cd (_registry_user_connections b) b.

Definition registry_get_connection_groups (connection_id : string) (b : MemoryBackend)
    : gset string :=
  match _registry_connection_data b !! connection_id with
  | Some d => cd_groups d
  | None => ∅
  end.

Definition registry_count_connections (b : MemoryBackend) : nat :=
  size (_registry_connections b).

(** [self._registry_user_connections.get(user_id, set()).copy()]. *)
Definition registry_get_user_connections (user_id : string) (b : MemoryBackend)
    : gset string :=
  default ∅ (_registry_user_connections b !! user_id).

Inductive RegistryOp : Type :=
| RegAdd (connection_id : string) (user_id : option string)
    (metadata : list (string * PyValue)) (grps : gset string) (heartbeat_timeout : float)
| RegRemove (connection_id : string) (user_id : option string)
| RegUpdateGroups (connection_id : string) (grps : gset string).

Definition registry_step (b : MemoryBackend) (op : RegistryOp) : MemoryBackend :=
  match op with
  | RegAdd c u m g h => registry_add_connection c u m g h b
  | RegRemove c u => registry_remove_connection c u b
  | RegUpdateGroups c g => registry_update_groups c g b
  end.

Definition run_registry_ops (ops : list RegistryOp) (b : MemoryBackend) : MemoryBackend :=
  foldl registry_step b ops.

(** The user_id a connection is registered with, when it is registered. *)
Definition registered_user (connection_id : string) (b : MemoryBackend)
    : option (option string) :=
  cd_user_id <$> _registry_connection_data b !! connection_id.

(** A call names its connection consistently when the connection is not
    registered, or is registered with the very user_id the call passes. *)
Definition names_registered_user (op : RegistryOp) (b : MemoryBackend) : bool :=
  match op with
  | RegAdd c u _ _ _ | RegRemove c u =>
      match registered_user c b with
      | Some u' => bool_decide (u' = u)
      | None => true
      end
  | RegUpdateGroups _ _ => true
  end.

(** Every call of the sequence names its connection consistently in the state
    it runs in. *)
Fixpoint consistent_calls (ops : list RegistryOp) (b : MemoryBackend) : bool :=
  match ops with
  | [] => true
  | op :: rest => names_registered_user op b && consistent_calls rest (registry_step b op)
  end.

(** What holds of the registry after any calls: the primary set and the
    primary map hold the same ids, no user_id key holds an empty set, the
    empty string is no key, and a connection registered with a non-empty
    user_id is listed under it. *)
Record registry_inv (b : MemoryBackend) : Prop := mkRegistryInv {
  inv_primary : ∀ c,
    c ∈ _registry_connections b ↔ is_Some (_registry_connection_data b !! c);
  inv_nonempty : ∀ u s, _registry_user_connections b !! u = Some s → s ≠ ∅;
  inv_keys : ∀ u, is_Some (_registry_user_connections b !! u) → u ≠ "";
  inv_indexed : ∀ c u,
    registered_user c b = Some (Some u) → u ≠ "" →
    c ∈ registry_get_user_connections u b
}.

(** Every id listed under a user_id is registered with that user_id. *)
Definition index_sound (b : MemoryBackend) : Prop :=
  ∀ u c, c ∈ registry_get_user_connections u b → registered_user c b = Some (Some u).

(** *** Channel names ([BaseBackend.new_channel]) *)

(** [self._channel_counter += 1] and then the f-string
    [{prefix}.{int(loop.time() * 1000)}.{self._channel_counter}];
    [loop_time] is the reading of [asyncio.get_event_loop().time()]. *)
Definition new_channel (prefix : string) (loop_time : float) (b : MemoryBackend)
    : Outcome Builtin string * MemoryBackend :=
  let b' := set_channel_counter (_channel_counter b + 1) b in
  match py_int (PrimFloat.mul loop_time 1000) with
  | Return ms =>
      (Return (prefix +:+ "." +:+ pretty ms +:+ "." +:+ pretty (_channel_counter b')), b')
  | Raise e => (Raise e, b')
  end.

(** The part of a name after its last dot (the whole name when it has none). *)
Fixpoint has_dot (s : string) : bool :=
  match s with
  | EmptyString => false
  | String c s' => if Ascii.eqb c "."%char then true else has_dot s'
  end.

Fixpoint after_last_dot (s : string) : string :=
  match s with
  | EmptyString => EmptyString
  | String c s' =>
      if has_dot s' then after_last_dot s'
      else if Ascii.eqb c "."%char then s' else String c s'
  end.

(** A run of [new_channel] calls, each with its prefix and clock reading;
    the outcomes are listed in call order. *)
Fixpoint run_new_channel (calls : list (string * float)) (b : MemoryBackend)
    : list (Outcome Builtin string) * MemoryBackend :=
  match calls with
  | [] => ([], b)
  | (prefix, t) :: rest =>
      let '(r, b1) := new_channel prefix t b in
      let '(rs, b2) := run_new_channel rest b1 in
      (r :: rs, b2)
  end.

(** *** [BaseBackend.flush] and runs of mixed calls *)

(** [self.groups.clear()] and [self.subscriptions.clear()]: the counter, the
    queues and the registry are left as they are. *)
Definition flush (b : MemoryBackend) : MemoryBackend :=
  mkBackend ∅ ∅ (_channel_counter b) (channels b)
    (_registry_connections b) (_registry_connection_data b) (_registry_user_connections b).

(** Calls on the group index, [flush] among them. *)
Inductive IndexOp : Type :=
| IndexAdd (group channel : string)
| IndexDiscard (group channel : string)
| IndexFlush.

Definition index_step (b : MemoryBackend) (op : IndexOp) : MemoryBackend :=
  match op with
  | IndexAdd g c => group_add g c b
  | IndexDiscard g c => group_discard g c b
  | IndexFlush => flush b
  end.

Definition run_index_ops (ops : list IndexOp) (b : MemoryBackend) : MemoryBackend :=
  foldl index_step b ops.

(** Whether [channel] is a member of [group] after one more call, given
    whether it was one before. *)
Definition member_after (group channel : string) (before : bool) (op : IndexOp) : bool :=
  match op with
  | IndexAdd g c =>
      if bool_decide (g = group ∧ c = channel) then true else before
  | IndexDiscard g c =>
      if bool_decide (g = group ∧ c = channel) then false else before
  | IndexFlush => false
  end.

(** Whether the last call of [ops] that concerns [channel] in [group] (an add
    or a discard of that pair, or a flush) is an add. *)
Definition last_call_adds (group channel : string) (ops : list IndexOp) : bool :=
  foldl (member_after group channel) false ops.

(** Any call of the backend that the model covers. *)
Inductive BackendOp : Type :=
| OpIndex (op : IndexOp)
| OpRegistry (op : RegistryOp)
| OpNewChannel (prefix : string) (loop_time : float).

(** One call; a [new_channel] that returns gives its name. *)
Definition backend_step (b : MemoryBackend) (op : BackendOp)
    : option string * MemoryBackend :=
  match op with
  | OpIndex o => (None, index_step b o)
  | OpRegistry o => (None, registry_step b o)
  | OpNewChannel prefix t =>
      match new_channel prefix t b with
      | (Return name, b') => (Some name, b')
      | (Raise _, b') => (None, b')
      end
  end.

(** A run of calls: the names [new_channel] returned, in call order. *)
Fixpoint run_backend_ops (ops : list BackendOp) (b : MemoryBackend)
    : list string * MemoryBackend :=
  match ops with
  | [] => ([], b)
  | op :: rest =>
      let '(r, b1) := backend_step b op in
      let '(names, b2) := run_backend_ops rest b1 in
      (match r with Some name => name :: names | None => names end, b2)
  end.

End Backends.

(** ** core/middleware/rate_limit.py: the token bucket *)

Module RateLimit.

Record TokenBucketRateLimiter : Type := mkLimiter {
  rate : Z;
  window : Z;
  burst : Z;
  buckets : gmap string (float * Z)
}.

(** [TokenBucketRateLimiter(rate, window_seconds, burst_size)]. *)
Definition new_limiter (rate window_seconds burst_size : Z) : TokenBucketRateLimiter :=
  mkLimiter rate window_seconds burst_size ∅.

Definition set_bucket (key : string) (entry : float * Z) (l : TokenBucketRateLimiter)
    : TokenBucketRateLimiter :=
  mkLimiter (rate l) (window l) (burst l) (<[key := entry]> (buckets l)).

(** [int(elapsed * (self.rate / self.window))]: the division and the product
    are binary64 operations, [int] truncates. *)
Definition refill (l : TokenBucketRateLimiter) (elapsed : float) : Outcome Builtin Z :=
  match py_truediv (rate l) (window l) with
  | Raise e => Raise e
  | Return per_second => py_int (PrimFloat.mul elapsed per_second)
  end.

(** [allow(key)], with [now] the reading of [time.time()]. *)
Definition allow (key : string) (now : float) (l : TokenBucketRateLimiter)
    : Outcome Builtin bool * TokenBucketRateLimiter :=
  match buckets l !! key with
  | None => (Return true, set_bucket key (now, burst l - 1)%Z l)
  | Some (last_check, tokens) =>
      let elapsed := PrimFloat.sub now last_check in
      match refill l elapsed with
      | Raise e => (Raise e, l)
      | Return added =>
          let tokens := Z.min (burst l) (tokens + added) in
          if (0 <? tokens)%Z
          then (Return true, set_bucket key (now, tokens - 1)%Z l)
          else (Return false, set_bucket key (now, 0%Z) l)
      end
  end.

(** Calls of [allow] for one key at the given clock readings; the answers
    are listed in call order (a raising call ends the run). *)
Fixpoint allow_at (key : string) (times : list float) (l : TokenBucketRateLimiter)
    : list bool * TokenBucketRateLimiter :=
  match times with
  | [] => ([], l)
  | t :: rest =>
      match allow key t l with
      | (Return ok, l') => let '(oks, l'') := allow_at key rest l' in (ok :: oks, l'')
      | (Raise _, l') => ([], l')
      end
  end.

(** One call of [allow] seen from the bucket of its key alone: the answer
    and the entry stored. *)
Definition bucket_step (l : TokenBucketRateLimiter) (entry : option (float * Z))
    (now : float) : Outcome Builtin (bool * (float * Z)) :=
  match entry with
  | None => Return (true, (now, burst l - 1)%Z)
  | Some (last_check, tokens) =>
      match refill l (PrimFloat.sub now last_check) with
      | Raise e => Raise e
      | Return added =>
          let tokens := Z.min (burst l) (tokens + added) in
          if (0 <? tokens)%Z then Return (true, (now, tokens - 1)%Z)
          else Return (false, (now, 0%Z))
      end
  end.

Fixpoint bucket_run (l : TokenBucketRateLimiter) (entry : option (float * Z))
    (times : list float) : list bool :=
  match times with
  | [] => []
  | t :: rest =>
      match bucket_step l entry t with
      | Return (ok, e) => ok :: bucket_run l (Some e) rest
      | Raise _ => []
      end
  end.

(** The refill of the specification, in exact arithmetic, for an elapsed
    time of a whole number of seconds:
    [min(burst, tokens + floor(elapsed * rate / window))]. *)
Definition spec_refilled (burst_size tokens rate_ window_seconds elapsed : Z) : Z :=
  Z.min burst_size (tokens + (elapsed * rate_) / window_seconds).

End RateLimit.

(** ** core/typed.py, core/middleware: messages and pipeline stages *)

Module Pipeline.

Inductive ConnectionState : Type :=
| CONNECTING
| CONNECTED
| DISCONNECTING
| DISCONNECTED.

(** [MessagePriority.<member>.value]. *)
Definition priority_value (p : MessagePriority) : string :=
  match p with
  | HIGH => "high"
  | NORMAL => "normal"
  | LOW => "low"
  end.

(** The dataclass [Message]. Python does not check the annotations of a
    dataclass: every field holds whatever value the call of [Message(...)]
    was given. *)
Record Message : Type := mkMessage {
  type : PyValue;
  data : PyValue;
  sender_id : PyValue;
  group : PyValue;
  metadata : PyValue;
  priority : PyValue;
  ttl_seconds : PyValue;
  created_at : PyValue
}.

(** [x > n] for a float and an int, compared exactly as Python does. *)
Definition float_gt_int (x : float) (n : Z) : bool :=
  match Prim2SF x with
  | S754_nan => false
  | S754_infinity s => negb s
  | S754_zero _ => (n <? 0)%Z
  | S754_finite s m e =>
      let v := if s then Z.neg m else Z.pos m in
      if (0 <=? e)%Z then (n <? v * 2 ^ e)%Z else (n * 2 ^ (- e) <? v)%Z
  end.

(** [now - created] for the float [now]: an int is converted to a float
    first (OverflowError when it is too large), and a value that is no
    number raises TypeError. *)
Definition age (now : float) (created : PyValue) : Outcome Builtin float :=
  match created with
  | PyFloat c => Return (PrimFloat.sub now c)
  | PyInt n =>
      match py_float n with
      | Return c => Return (PrimFloat.sub now c)
      | Raise e => Raise e
      end
  | PyBool b => Return (PrimFloat.sub now (if b then 1 else 0))
  | PyNone | PyStr _ | PyList _ | PyDict _ | PyPriority _ | PyObject _ _ => Raise TypeError
  end.

(** [Message.is_expired], with [now] the reading of [time.time()]: [False]
    without a TTL; else the age is computed, and then compared with the TTL,
    which raises TypeError when the TTL is no number. *)
Definition is_expired (now : float) (m : Message) : Outcome Builtin bool :=
  match ttl_seconds m with
  | PyNone => Return false
  | ttl =>
      match age now (created_at m) with
      | Raise e => Raise e
      | Return elapsed =>
          match ttl with
          | PyFloat seconds => Return (PrimFloat.ltb seconds elapsed)
          | PyInt n => Return (float_gt_int elapsed n)
          | PyBool b => Return (float_gt_int elapsed (if b then 1 else 0)%Z)
          | PyNone | PyStr _ | PyList _ | PyDict _ | PyPriority _ | PyObject _ _ =>
              Raise TypeError
          end
      end
  end.

(** [Message.to_dict]: a priority that is a member of the enum is written
    as its value, any other priority as it is. *)
Definition to_dict (m : Message) : PyValue :=
  PyDict [("type", type m); ("data", data m);
          ("sender_id", sender_id m);
          ("group", group m);
          ("metadata", metadata m);
          ("priority", match priority m with
                       | PyPriority p => PyStr (priority_value p)
                       | other => other
                       end);
          ("ttl_seconds", ttl_seconds m);
          ("created_at", created_at m)].

(** *** Typed errors *)

(** Modelled from the spec: [core/exceptions.py] is not among the sources.
    The spec names four kinds of typed error and an error response envelope
    of an error code, a human-readable message and a context blob (user_id,
    connection_id, component, extra fields). The four kinds are the values
    of [kind]; which of them an [except] clause matches is decided where the
    clause is modelled. *)
Inductive ErrorKind : Type :=
| AuthenticationError
| ValidationError
| MessageError
| RateLimitError.

Record ErrorContext : Type := mkErrorContext {
  ctx_user_id : option string;
  ctx_connection_id : option string;
  ctx_component : option string;
  ctx_extra : list (string * PyValue)
}.

Record BaseError : Type := mkBaseError {
  kind : ErrorKind;
  message : string;
  error_code : option string;
  context : option ErrorContext;
  details : list (string * PyValue)
}.

(** The error code of the envelope: the code the raise site gives, else the
    default of the error's class. *)
Inductive ErrorCode : Type :=
| ExplicitCode (code : string)
| DefaultCode (k : ErrorKind).

Record ErrorResponse : Type := mkErrorResponse {
  resp_error_code : ErrorCode;
  resp_message : string;
  resp_context : option ErrorContext
}.

(** Modelled from the spec: [BaseError.to_response], the conversion of a
    typed error to the envelope. *)
Definition to_response (e : BaseError) : ErrorResponse :=
  mkErrorResponse
    (match error_code e with
     | Some code => ExplicitCode code
     | None => DefaultCode (kind e)
     end)
    (message e) (context e).

(** What a call of the pipeline may raise: a typed error or a built-in one. *)
Inductive Exc : Type :=
| Typed (e : BaseError)
| Untyped (b : Builtin).

(** *** Connections *)

(** What was sent over a transport: an error envelope or any other JSON
    payload. *)
Inductive Frame : Type :=
| SentError (r : ErrorResponse)
| SentJson (payload : PyValue).

(** Modelled from the spec: [core/connections/state.py] is not among the
    sources. A connection has its channel_name, an optional user_id, its
    groups mirror, lifecycle state, heartbeat bookkeeping and traffic
    counters; [websocket] lists the frames sent over its transport, oldest
    first. *)
Record Connection : Type := mkConnection {
  channel_name : string;
  user_id : option string;
  groups : gset string;
  state : ConnectionState;
  last_heartbeat : float;
  heartbeat_timeout : float;
  bytes_received : Z;
  last_activity : float;
  websocket : list Frame
}.


(** Modelled from the spec: [Connection.update_heartbeat] sets
    [last_heartbeat] to now. *)
Definition update_heartbeat (now : float) (c : Connection) : Connection :=
  mkConnection (channel_name c) (user_id c) (groups c) (state c) now
    (heartbeat_timeout c) (bytes_received c) (last_activity c) (websocket c).

(** Modelled from the spec: [Connection.update_activity] sets the
    last-activity time to now. *)
Definition update_activity (now : float) (c : Connection) : Connection :=
  mkConnection (channel_name c) (user_id c) (groups c) (state c) (last_heartbeat c)
    (heartbeat_timeout c) (bytes_received c) now (websocket c).

Definition add_bytes_received (n : Z) (c : Connection) : Connection :=
  mkConnection (channel_name c) (user_id c) (groups c) (state c) (last_heartbeat c)
    (heartbeat_timeout c) (bytes_received c + n) (last_activity c) (websocket c).

(** [await connection.websocket.send_json(payload)]. *)
Definition websocket_send (f : Frame) (c : Connection) : Connection :=
  mkConnection (channel_name c) (user_id c) (groups c) (state c) (last_heartbeat c)
    (heartbeat_timeout c) (bytes_received c) (last_activity c) (websocket c ++ [f]).

(** *** Stages *)

(** [value in {name, ...}] for a set of strings, and [value in d] for a
    dict with these keys: hashing a list, a dict or an object that cannot be
    hashed raises TypeError; any other value that is no string is no
    member. *)
Definition py_in_names (value : PyValue) (names : list string) : Outcome Builtin bool :=
  match value with
  | PyStr s => Return (bool_decide (s ∈ names))
  | PyList _ | PyDict _ => Raise TypeError
  | PyObject _ hashable => if hashable then Return false else Raise TypeError
  | PyNone | PyBool _ | PyInt _ | PyFloat _ | PyPriority _ => Return false
  end.

(** [AuthenticationMiddleware.process]. *)
Definition auth_process (m : Message) (connection : Connection) : Outcome Exc Message :=
  match py_in_names (type m) ["ping"; "pong"; "connect"] with
  | Raise e => Raise (Untyped e)
  | Return true => Return m
  | Return false =>
      if negb (truthy (user_id connection))
      then Raise (Typed (mkBaseError AuthenticationError "Authentication required" None
                           (Some (mkErrorContext None (Some (channel_name connection))
                                    (Some "authentication_middleware")
                                    [("message_type", type m)]))
                           []))
      else Return m
  end.

(** [LoggingMiddleware.process]: the log record apart, the identity. *)
Definition logging_process (m : Message) (connection : Connection) : Outcome Exc Message :=
  Return m.

Section Validation.

(** [json.dumps]: the text, or the [str] of the exception it raises for a
    value it cannot serialise. *)
Variable json_dumps : PyValue → Outcome string string.

Definition too_large (size max_message_size : Z) (m : Message) (connection : Connection)
    : BaseError :=
  mkBaseError ValidationError
    ("Message too large: " +:+ pretty size +:+ " bytes (max: "
       +:+ pretty max_message_size +:+ ")")
    None
    (Some (mkErrorContext (user_id connection) (Some (channel_name connection))
             (Some "validation_middleware")
             [("message_type", type m); ("message_size", PyInt size);
              ("max_size", PyInt max_message_size)]))
    [].

Definition validation_failed (text : string) (m : Message) (connection : Connection)
    : BaseError :=
  mkBaseError ValidationError ("Validation failed: " +:+ text) None
    (Some (mkErrorContext (user_id connection) (Some (channel_name connection))
             (Some "validation_middleware")
             [("message_type", type m); ("original_error", PyStr text)]))
    [].

(** [ValidationMiddleware(max_message_size).process], with [now] the reading
    of [time.time()] inside [is_expired]. *)
Definition validation_process (max_message_size : Z) (now : float) (m : Message)
    (connection : Connection) : Outcome Exc (option Message) :=
  match json_dumps (to_dict m) with
  | Raise text => Raise (Typed (validation_failed text m connection))
  | Return text =>
      let size := Z.of_nat (String.length text) in
      if (max_message_size <? size)%Z
      then Raise (Typed (too_large size max_message_size m connection))
      else
        match is_expired now m with
        | Raise e => Raise (Untyped e)
        | Return true => Return None
        | Return false => Return (Some m)
        end
  end.

End Validation.

(** A stand-in for [json.dumps] in the examples: like [json.dumps], it
    refuses a message whose data is a [PyObject], with the text of the
    TypeError; for any other message it gives a short text (the real one is
    longer, and as far below a maximum of 1 MiB). *)
Definition sample_dumps (v : PyValue) : Outcome string string :=
  match v with
  | PyDict (("type", PyStr t) :: ("data", PyObject tag _) :: _) =>
      Raise ("Object of type " +:+ tag +:+ " is not JSON serializable")
  | PyDict (("type", PyStr t) :: _) => Return ("{" +:+ t +:+ "}")
  | _ => Return "{}"
  end.

End Pipeline.

(** ** The world a consumer runs in, and what both consumers share *)

Module Dispatch.
Import Pipeline.

Section World.

(** Whatever state the application keeps beside the connections. *)
Variable S : Type.

(** The consumer's own connection, the other connections by channel_name,
    the wall clock ([clock n] is the [n]-th reading of [time.time()]) and
    the application state. *)
Record World : Type := mkWorld {
  own : Connection;
  others : gmap string Connection;
  clock : nat → float;
  ticks : nat;
  app : S
}.

(** An awaited call: it returns or raises, and leaves a world behind. *)
Definition M (A : Type) : Type := World → Outcome Exc A * World.

Definition set_own (c : Connection) (w : World) : World :=
  mkWorld c (others w) (clock w) (ticks w) (app w).

(** [time.time()]. *)
Definition time_time (w : World) : float * World :=
  (clock w (ticks w), mkWorld (own w) (others w) (clock w) (Datatypes.S (ticks w)) (app w)).

(** [await self.connection.websocket.send_json(payload)]. *)
Definition send_json (f : Frame) : M unit :=
  λ w, (Return tt, set_own (websocket_send f (own w)) w).

(** A [Middleware] object: its [process] and its [next_middleware]. *)
#[warnings="-register-all"]
Inductive Middleware : Type :=
| mkMiddleware (process : Message → M (option Message)) (next_middleware : option Middleware).

(** [Middleware.__call__]: process, then hand a message that is not [None]
    to the next middleware when there is one. *)
Fixpoint call (mw : Middleware) (m : Message) : M (option Message) :=
  match mw with
  | mkMiddleware process next_middleware =>
      λ w,
        match process m w with
        | (Return (Some processed), w') =>
            match next_middleware with
            | Some next => call next processed w'
            | None => (Return (Some processed), w')
            end
        | (Return None, w') => (Return None, w')
        | (Raise e, w') => (Raise e, w')
        end
  end.

End World.

Arguments mkWorld {S} own others clock ticks app.
Arguments own {S} w.
Arguments others {S} w.
Arguments clock {S} w n.
Arguments ticks {S} w.
Arguments app {S} w.
Arguments set_own {S} c w.
Arguments time_time {S} w.
Arguments send_json {S} f w.
Arguments mkMiddleware {S} process next_middleware.
Arguments call {S} mw m w.

(** [AuthenticationMiddleware] and [LoggingMiddleware] as objects of a world:
    [connection] is the consumer's own connection. *)
Definition lift_stage {S : Type} (process : Message → Connection → Outcome Exc Message)
    (next_middleware : option (Middleware S)) : Middleware S :=
  mkMiddleware
    (λ m w,
       match process m (own w) with
       | Return m' => (Return (Some m'), w)
       | Raise e => (Raise e, w)
       end)
    next_middleware.

Definition AuthenticationMiddleware {S : Type} (next_middleware : option (Middleware S))
    : Middleware S :=
  lift_stage auth_process next_middleware.

Definition LoggingMiddleware {S : Type} (next_middleware : option (Middleware S))
    : Middleware S :=
  lift_stage logging_process next_middleware.

(** [message_type == "pong"]. *)
Definition is_pong (message_type : PyValue) : bool :=
  match message_type with
  | PyStr s => String.eqb s "pong"
  | _ => false
  end.

(** [MessagePriority(priority_value)] for a value of the enum. *)
Definition priority_of_value (name : string) : MessagePriority :=
  if String.eqb name "high" then HIGH
  else if String.eqb name "low" then LOW
  else NORMAL.

(** The priority of a payload: [data.get("priority", "normal")], looked up
    in [MessagePriority._value2member_map_] (a dict, so a value that cannot
    be hashed raises TypeError), NORMAL when it is no value of the enum. *)
Definition message_priority (payload : list (string * PyValue))
    : Outcome Builtin MessagePriority :=
  let priority_value := default (PyStr "normal") (dict_get "priority" payload) in
  match py_in_names priority_value ["high"; "normal"; "low"] with
  | Raise e => Raise e
  | Return true =>
      match priority_value with
      | PyStr name => Return (priority_of_value name)
      | _ => Return NORMAL
      end
  | Return false => Return NORMAL
  end.

(** The [Message(...)] call of [handle_message]: [self_channel] is
    [self.connection.channel_name], [now] the reading of [time.time()] that
    fills [created_at]. *)
Definition build_message (payload : list (string * PyValue)) (p : MessagePriority)
    (self_channel : string) (now : float) : Message :=
  mkMessage (default (PyStr "message") (dict_get "type" payload))
    (default PyNone (dict_get "data" payload))
    (PyStr self_channel)
    PyNone
    (default PyNone (dict_get "metadata" payload))
    (PyPriority p)
    (default PyNone (dict_get "ttl_seconds" payload))
    (PyFloat now).

(** The context [handle_message] builds for a frame that is no JSON. *)
Definition invalid_json (text : string) (c : Connection) : BaseError :=
  mkBaseError ValidationError "Invalid JSON format" (Some "INVALID_JSON")
    (Some (mkErrorContext (user_id c) (Some (channel_name c)) (Some "consumer") []))
    [("parse_error", PyStr text)].

Section Frames.

Variable S : Type.

(** [json.loads]: the value, or the JSONDecodeError it raises. *)
Variable json_loads : string → Outcome Builtin PyValue.

(** The statements of [handle_message] from [json.loads] to the counters,
    the same in both consumers: a pong frame updates the heartbeat and ends
    the call ([None]); any other frame gives the message to process.
    [data.get] on a value that is no dict raises AttributeError;
    [len(raw_message.encode())] is the length of the frame in bytes. *)
Definition read_frame (raw_message : string) : M S (option Message) :=
  λ w,
    match json_loads raw_message with
    | Raise e => (Raise (Untyped e), w)
    | Return (PyDict payload) =>
        let message_type := default (PyStr "message") (dict_get "type" payload) in
        if is_pong message_type then
          let '(now, w1) := time_time w in
          (Return None, set_own (update_heartbeat now (own w1)) w1)
        else
          match message_priority payload with
          | Raise e => (Raise (Untyped e), w)
          | Return p =>
              let '(created, w1) := time_time w in
              let m := build_message payload p (channel_name (own w1)) created in
              let w2 := set_own (add_bytes_received (Z.of_nat (String.length raw_message))
                                   (own w1)) w1 in
              let '(now, w3) := time_time w2 in
              (Return (Some m), set_own (update_activity now (own w3)) w3)
          end
    | Return _ => (Raise (Untyped AttributeError), w)
    end.

End Frames.

Arguments read_frame {S} json_loads raw_message w.

(** The frame [{"sender_id": "channel.9.9"}], its quotes written by code. *)
Definition spoofed_frame : string :=
  let q := String (ascii_of_nat 34) "" in
  "{" +:+ q +:+ "sender_id" +:+ q +:+ ": " +:+ q +:+ "channel.9.9" +:+ q +:+ "}".

(** [json.loads] on the frames of the examples: an empty object, the object
    of [spoofed_frame], an empty list, and a lone brace, which is no JSON. *)
Definition sample_loads (raw : string) : Outcome Builtin PyValue :=
  if String.eqb raw "{}" then Return (PyDict [])
  else if String.eqb raw spoofed_frame
  then Return (PyDict [("sender_id", PyStr "channel.9.9")])
  else if String.eqb raw "[]" then Return (PyList [])
  else Raise (JSONDecodeError
                "Expecting property name enclosed in double quotes: line 1 column 2 (char 1)").

(** A world for the examples: the consumer's connection is unauthenticated,
    one other connection exists, and the clock stands still. *)
Definition sample_world : World unit :=
  mkWorld (mkConnection "channel.1.1" None ∅ CONNECTED 0 60 0 0 [])
    {["channel.1.2" := mkConnection "channel.1.2" (Some "bob") ∅ CONNECTED 0 60 0 0 []]}
    (λ _, 1700000000%float) 0 tt.

End Dispatch.

(** ** core/consumer/base.py *)

Module CoreConsumer.
Import Pipeline Dispatch.

Section Consumer.

Variable S : Type.
Variable json_loads : string → Outcome Builtin PyValue.

(** Whether [RateLimitError] inherits from one of the three classes the
    [except] clause of [handle_message] names: [core/exceptions.py], which
    declares the classes, is not among the sources. *)
Variable rate_limit_is_caught : bool.

(** [BaseConsumer]: its middleware stacks and the [receive] of the
    application's subclass; its connection is [own] of the world. *)
Record BaseConsumer : Type := mkConsumer {
  middleware_stacks : list (Middleware S);
  receive : Message → M S unit
}.

(** The [for middleware in self.middleware_stacks] loop; [None] when a
    stack dropped the message. *)
Fixpoint run_stacks (stacks : list (Middleware S)) (m : Message) : M S (option Message) :=
  match stacks with
  | [] => λ w, (Return (Some m), w)
  | mw :: rest =>
      λ w,
        match call mw m w with
        | (Return (Some m'), w') => run_stacks rest m' w'
        | (Return None, w') => (Return None, w')
        | (Raise e, w') => (Raise e, w')
        end
  end.

(** The pipeline and then [self.receive(message)]. *)
Definition dispatch (self : BaseConsumer) (m : Message) : M S unit :=
  λ w,
    match run_stacks (middleware_stacks self) m w with
    | (Return (Some m'), w') => receive self m' w'
    | (Return None, w') => (Return tt, w')
    | (Raise e, w') => (Raise e, w')
    end.

(** The body of the [try]. *)
Definition try_body (self : BaseConsumer) (raw_message : string) : M S unit :=
  λ w,
    match read_frame json_loads raw_message w with
    | (Return (Some m), w') => dispatch self m w'
    | (Return None, w') => (Return tt, w')
    | (Raise e, w') => (Raise e, w')
    end.

(** [except (AuthenticationError, ValidationError, MessageError)]. *)
Definition caught (k : ErrorKind) : bool :=
  match k with
  | AuthenticationError | ValidationError | MessageError => true
  | RateLimitError => rate_limit_is_caught
  end.

(** [handle_message]: the [try] body under its two [except] clauses. An
    exception raised inside an [except] clause is not handled by the clause
    next to it. *)
Definition handle_message (self : BaseConsumer) (raw_message : string) : M S unit :=
  λ w,
    match try_body self raw_message w with
    | (Return r, w') => (Return r, w')
    | (Raise (Untyped (JSONDecodeError text)), w') =>
        (Raise (Typed (invalid_json text (own w'))), w')
    | (Raise (Typed e), w') =>
        if caught (kind e) then send_json (SentError (to_response e)) w'
        else (Raise (Typed e), w')
    | (Raise (Untyped b), w') => (Raise (Untyped b), w')
    end.

End Consumer.

Arguments mkConsumer {S} middleware_stacks receive.
Arguments middleware_stacks {S} b.
Arguments receive {S} b m w.
Arguments run_stacks {S} stacks m w.
Arguments dispatch {S} self m w.
Arguments try_body {S} json_loads self raw_message w.
Arguments handle_message {S} json_loads rate_limit_is_caught self raw_message w.

(** A consumer for the examples: one authentication stage, and a [receive]
    that does nothing. *)
Definition sample_consumer : BaseConsumer unit :=
  mkConsumer [AuthenticationMiddleware None] (λ _ w, (Return tt, w)).

End CoreConsumer.

(** ** fastapi_channel/consumer/base.py *)

Module ChannelConsumer.
Import Pipeline Dispatch.

Section Consumer.

Variable S : Type.
Variable json_loads : string → Outcome Builtin PyValue.

Record BaseConsumer : Type := mkConsumer {
  middleware_stack : option (Middleware S);
  receive : Message → M S unit
}.

(** [if self.middleware_stack:] the one stack, then [self.receive(message)]. *)
Definition dispatch (self : BaseConsumer) (m : Message) : M S unit :=
  λ w,
    match middleware_stack self with
    | Some mw =>
        match call mw m w with
        | (Return (Some m'), w') => receive self m' w'
        | (Return None, w') => (Return tt, w')
        | (Raise e, w') => (Raise e, w')
        end
    | None => receive self m w
    end.

(** The body of the [try]. *)
Definition try_body (self : BaseConsumer) (raw_message : string) : M S unit :=
  λ w,
    match read_frame json_loads raw_message w with
    | (Return (Some m), w') => dispatch self m w'
    | (Return None, w') => (Return tt, w')
    | (Raise e, w') => (Raise e, w')
    end.

(** [handle_message]: its only [except] clause turns a JSONDecodeError into
    a ValidationError and raises it. *)
Definition handle_message (self : BaseConsumer) (raw_message : string) : M S unit :=
  λ w,
    match try_body self raw_message w with
    | (Raise (Untyped (JSONDecodeError text)), w') =>
        (Raise (Typed (invalid_json text (own w'))), w')
    | (r, w') => (r, w')
    end.

(** [handle_error]. *)
Definition handle_error (error : BaseError) : M S unit :=
  send_json (SentError (to_response error)).

End Consumer.

Arguments mkConsumer {S} middleware_stack receive.
Arguments middleware_stack {S} b.
Arguments receive {S} b m w.
Arguments dispatch {S} self m w.
Arguments try_body {S} json_loads self raw_message w.
Arguments handle_message {S} json_loads self raw_message w.
Arguments handle_error {S} error w.

End ChannelConsumer.

(** ** core/backends/memory.py: publish, subscribe, group_send *)

Module PubSub.
Import Backends.

(** [self.channels] and [self.listeners] with their [asyncio.Queue] objects:
    a queue object is a number, [queue_items] gives the items each object
    holds, [channel_queue] is [self.channels] and [listeners] is the
    [defaultdict(set)] of queue objects; [fresh_queue] is the object the
    next [asyncio.Queue()] makes. The [channels] field of [MemoryBackend]
    is [pending] of this state. *)
Record Subscriptions : Type := mkSubscriptions {
  queue_items : gmap nat (list PyValue);
  channel_queue : gmap string nat;
  listeners : gmap string (gset nat);
  fresh_queue : nat
}.

Definition no_subscriptions : Subscriptions := mkSubscriptions ∅ ∅ ∅ 0.

(** The items waiting on the queue of each channel of [self.channels]. *)
Definition pending (s : Subscriptions) : gmap string (list PyValue) :=
  omap (λ q, queue_items s !! q) (channel_queue s).

(** [await queue.put(message)]; the queues are unbounded. *)
Definition queue_put (message : PyValue) (q : nat) (items : gmap nat (list PyValue))
    : gmap nat (list PyValue) :=
  alter (λ l, l ++ [message]) q items.

(** [publish]: [if channel in self.listeners:] put the message on every
    queue of [self.listeners[channel].copy()]. *)
Definition publish (channel : string) (message : PyValue) (s : Subscriptions)
    : Subscriptions :=
  match listeners s !! channel with
  | None => s
  | Some queues =>
      mkSubscriptions (foldr (queue_put message) (queue_items s) (elements queues))
        (channel_queue s) (listeners s) (fresh_queue s)
  end.

(** [subscribe]: make the queue of the channel when it has none, and add it
    to [self.listeners[channel]]. *)
Definition subscribe (channel : string) (s : Subscriptions) : Subscriptions :=
  match channel_queue s !! channel with
  | Some q =>
      mkSubscriptions (queue_items s) (channel_queue s)
        (<[channel := default ∅ (listeners s !! channel) ∪ {[q]}]> (listeners s))
        (fresh_queue s)
  | None =>
      mkSubscriptions (<[fresh_queue s := []]> (queue_items s))
        (<[channel := fresh_queue s]> (channel_queue s))
        (<[channel := default ∅ (listeners s !! channel) ∪ {[fresh_queue s]}]> (listeners s))
        (S (fresh_queue s))
  end.

(** [unsubscribe]: [if channel in self.channels:] discard its queue from
    [self.listeners[channel]] and delete [self.channels[channel]]. *)
Definition unsubscribe (channel : string) (s : Subscriptions) : Subscriptions :=
  match channel_queue s !! channel with
  | None => s
  | Some q =>
      mkSubscriptions (queue_items s) (delete channel (channel_queue s))
        (<[channel := default ∅ (listeners s !! channel) ∖ {[q]}]> (listeners s))
        (fresh_queue s)
  end.

(** The first two statements of [cleanup]: [self.channels.clear()] and
    [self.listeners.clear()]. *)
Definition clear (s : Subscriptions) : Subscriptions :=
  mkSubscriptions (queue_items s) ∅ ∅ (fresh_queue s).

(** [self.channels[channel].get()] when it completes: the oldest item leaves
    the queue of the channel. *)
Definition queue_get (channel : string) (s : Subscriptions)
    : option (PyValue * Subscriptions) :=
  match channel_queue s !! channel with
  | None => None
  | Some q =>
      match queue_items s !! q with
      | Some (item :: rest) =>
          Some (item, mkSubscriptions (<[q := rest]> (queue_items s)) (channel_queue s)
                        (listeners s) (fresh_queue s))
      | _ => None
      end
  end.

(** [group_send]: [publish] to every channel of
    [self._get_group_channels(group)]; no [publish] of this backend raises,
    so no failure is logged. *)
Definition group_send (group : string) (message : PyValue) (b : MemoryBackend)
    (s : Subscriptions) : Subscriptions :=
  foldr (λ channel, publish channel message) s (elements (_get_group_channels group b)).

(** [cleanup]: both clears, then [flush]. *)
Definition cleanup (b : MemoryBackend) (s : Subscriptions) : MemoryBackend * Subscriptions :=
  (flush (set_channels ∅ b), clear s).

Inductive QueueOp : Type :=
| Subscribe (channel : string)
| Unsubscribe (channel : string)
| Publish (channel : string) (message : PyValue)
| Get (channel : string)
| Clear.

Definition queue_step (s : Subscriptions) (op : QueueOp) : Subscriptions :=
  match op with
  | Subscribe c => subscribe c s
  | Unsubscribe c => unsubscribe c s
  | Publish c m => publish c m s
  | Get c => match queue_get c s with Some (_, s') => s' | None => s end
  | Clear => clear s
  end.

Definition run_queue_ops (ops : list QueueOp) (s : Subscriptions) : Subscriptions :=
  foldl queue_step s ops.

(** What the calls keep true: the queue of a channel exists, is older than
    the next fresh one and is the one listener of the channel; a channel
    without a queue has no listener; two channels never share a queue. *)
Record subscriptions_inv (s : Subscriptions) : Prop := mkSubscriptionsInv {
  inv_queue : ∀ c q, channel_queue s !! c = Some q →
    q < fresh_queue s ∧ is_Some (queue_items s !! q) ∧ listeners s !! c = Some {[q]};
  inv_unsubscribed : ∀ c, channel_queue s !! c = None →
    default ∅ (listeners s !! c) = ∅;
  inv_distinct : ∀ c1 c2 q, channel_queue s !! c1 = Some q →
    channel_queue s !! c2 = Some q → c1 = c2
}.

End PubSub.

(** ** core/typed.py: Message.from_dict *)

Module Wire.
Import Pipeline Dispatch.

(** [Message.from_dict(payload)], with [now] the reading of [time.time()]
    that is the default of [created_at]. A priority that is a member of the
    enum already is kept; any other is looked up as in [handle_message], so
    the priority of the message made is always a member. Every other field
    takes what the payload holds, or its default. *)
Definition from_dict (now : float) (payload : list (string * PyValue))
    : Outcome Builtin Message :=
  let made (p : MessagePriority) :=
    mkMessage (default (PyStr "message") (dict_get "type" payload))
      (default PyNone (dict_get "data" payload))
      (default PyNone (dict_get "sender_id" payload))
      (default PyNone (dict_get "group" payload))
      (default PyNone (dict_get "metadata" payload))
      (PyPriority p)
      (default PyNone (dict_get "ttl_seconds" payload))
      (default (PyFloat now) (dict_get "created_at" payload)) in
  match default (PyStr "normal") (dict_get "priority" payload) with
  | PyPriority p => Return (made p)
  | _ =>
      match message_priority payload with
      | Raise e => Raise e
      | Return p => Return (made p)
      end
  end.

(** The items of [Message.to_dict()]. *)
Definition to_items (m : Message) : list (string * PyValue) :=
  match to_dict m with
  | PyDict items => items
  | _ => []
  end.

(** The frames [{"type": "pong"}], [{"priority": []}] and [{"type": []}],
    their quotes written by code. *)
Definition pong_frame : string :=
  let q := String (ascii_of_nat 34) "" in
  "{" +:+ q +:+ "type" +:+ q +:+ ": " +:+ q +:+ "pong" +:+ q +:+ "}".

Definition priority_frame : string :=
  let q := String (ascii_of_nat 34) "" in
  "{" +:+ q +:+ "priority" +:+ q +:+ ": []}".

Definition list_type_frame : string :=
  let q := String (ascii_of_nat 34) "" in
  "{" +:+ q +:+ "type" +:+ q +:+ ": []}".

(** [json.loads] on the frames of the examples. *)
Definition frame_loads (raw : string) : Outcome Builtin PyValue :=
  if String.eqb raw pong_frame then Return (PyDict [("type", PyStr "pong")])
  else if String.eqb raw priority_frame then Return (PyDict [("priority", PyList [])])
  else if String.eqb raw list_type_frame then Return (PyDict [("type", PyList [])])
  else sample_loads raw.

(** A fastapi_channel consumer for the examples: one authentication stage,
    and a [receive] that does nothing. *)
Definition sample_channel_consumer : ChannelConsumer.BaseConsumer unit :=
  ChannelConsumer.mkConsumer (Some (AuthenticationMiddleware None)) (λ _ w, (Return tt, w)).

End Wire.

(** ** core/middleware/base.py: stacks and chains *)

Module Chains.
Import Pipeline Dispatch.

(** Stages given by their [process], each a [Middleware] without a next one,
    as [middleware_stacks] of the core consumer lists them. *)
Definition unlinked {S : Type} (processes : list (Message → M S (option Message)))
    : list (Middleware S) :=
  map (λ process, mkMiddleware process None) processes.

(** The same stages linked through [next_middleware], first stage outermost,
    as [middleware_stack] of the fastapi_channel consumer takes them. *)
Definition linked {S : Type} (processes : list (Message → M S (option Message)))
    : option (Middleware S) :=
  foldr (λ process next, Some (mkMiddleware process next)) None processes.

End Chains.

(** ** core/config.py and core/middleware/rate_limit.py: the stage *)

Module RateLimitStage.
Import Pipeline RateLimit.

(** [Settings], the fields [core/config.py] declares. *)
Record Settings : Type := mkSettings {
  BACKEND_TYPE : string;
  REDIS_URL : string;
  REDIS_CHANNEL_PREFIX : string;
  WS_HEARTBEAT_INTERVAL : Z;
  WS_HEARTBEAT_TIMEOUT : Z;
  WS_MAX_MESSAGE_SIZE : Z;
  WS_RECONNECT_MAX_ATTEMPTS : Z;
  WS_RECONNECT_DELAY : Z;
  MAX_CONNECTIONS_PER_CLIENT : Z;
  MAX_TOTAL_CONNECTIONS : Z;
  LOG_LEVEL : string
}.

(** The field values of a [Settings] object by name; [None] for a name the
    class does not declare, for which [getattr(settings, name, default)]
    gives the default. *)
Definition settings_field (settings : Settings) (name : string) : option PyValue :=
  if String.eqb name "BACKEND_TYPE" then Some (PyStr (BACKEND_TYPE settings))
  else if String.eqb name "REDIS_URL" then Some (PyStr (REDIS_URL settings))
  else if String.eqb name "REDIS_CHANNEL_PREFIX"
  then Some (PyStr (REDIS_CHANNEL_PREFIX settings))
  else if String.eqb name "WS_HEARTBEAT_INTERVAL"
  then Some (PyInt (WS_HEARTBEAT_INTERVAL settings))
  else if String.eqb name "WS_HEARTBEAT_TIMEOUT"
  then Some (PyInt (WS_HEARTBEAT_TIMEOUT settings))
  else if String.eqb name "WS_MAX_MESSAGE_SIZE"
  then Some (PyInt (WS_MAX_MESSAGE_SIZE settings))
  else if String.eqb name "WS_RECONNECT_MAX_ATTEMPTS"
  then Some (PyInt (WS_RECONNECT_MAX_ATTEMPTS settings))
  else if String.eqb name "WS_RECONNECT_DELAY"
  then Some (PyInt (WS_RECONNECT_DELAY settings))
  else if String.eqb name "MAX_CONNECTIONS_PER_CLIENT"
  then Some (PyInt (MAX_CONNECTIONS_PER_CLIENT settings))
  else if String.eqb name "MAX_TOTAL_CONNECTIONS"
  then Some (PyInt (MAX_TOTAL_CONNECTIONS settings))
  else if String.eqb name "LOG_LEVEL" then Some (PyStr (LOG_LEVEL settings))
  else None.

Definition getattr (settings : Settings) (name : string) (default_value : PyValue)
    : PyValue :=
  default default_value (settings_field settings name).

(** [bool(value)]. *)
Definition py_bool (v : PyValue) : bool :=
  match v with
  | PyNone => false
  | PyBool b => b
  | PyInt z => negb (z =? 0)%Z
  | PyFloat f => negb (PrimFloat.eqb f 0)
  | PyStr s => negb (String.eqb s "")
  | PyList l => match l with [] => false | _ => true end
  | PyDict d => match d with [] => false | _ => true end
  | PyPriority _ | PyObject _ _ => true
  end.

Record RateLimitMiddleware : Type := mkRateLimitMiddleware {
  enabled : bool;
  messages_per_window : Z;
  window_seconds : Z;
  burst_size : Z;
  limiter : TokenBucketRateLimiter
}.

Definition set_limiter (l : TokenBucketRateLimiter) (mw : RateLimitMiddleware)
    : RateLimitMiddleware :=
  mkRateLimitMiddleware (enabled mw) (messages_per_window mw) (window_seconds mw)
    (burst_size mw) l.

Section Init.

(** [int(text)] for a string. *)
Variable int_of_str : string → Outcome Builtin Z.

(** [int(value)]. *)
Definition py_int_of (v : PyValue) : Outcome Builtin Z :=
  match v with
  | PyInt z => Return z
  | PyBool b => Return (if b then 1 else 0)%Z
  | PyFloat f => py_int f
  | PyStr s => int_of_str s
  | PyNone | PyList _ | PyDict _ | PyPriority _ | PyObject _ _ => Raise TypeError
  end.

(** [RateLimitMiddleware.__init__], given the [Settings()] object it makes. *)
Definition init (settings : Settings) : Outcome Builtin RateLimitMiddleware :=
  let on := py_bool (getattr settings "RATE_LIMIT_ENABLED" (PyBool false)) in
  match py_int_of (getattr settings "RATE_LIMIT_MESSAGES" (PyInt 100)) with
  | Raise e => Raise e
  | Return per_window =>
      match py_int_of (getattr settings "RATE_LIMIT_WINDOW" (PyInt 60)) with
      | Raise e => Raise e
      | Return seconds =>
          match py_int_of (getattr settings "RATE_LIMIT_BURST" (PyInt per_window)) with
          | Raise e => Raise e
          | Return burst_ =>
              Return (mkRateLimitMiddleware on per_window seconds burst_
                        (new_limiter per_window seconds burst_))
          end
      end
  end.

End Init.

(** The key of a connection: its channel_name, or ["unknown"] when that is
    empty (the connection of the specification has no [id] attribute). *)
Definition limiter_key (connection : Connection) : string :=
  if truthy (Some (channel_name connection)) then channel_name connection
  else "unknown".

Definition rate_limit_exceeded (m : Message) (connection : Connection) : BaseError :=
  mkBaseError RateLimitError "Rate limit exceeded" None
    (Some (mkErrorContext (user_id connection) (Some (channel_name connection))
             (Some "rate_limit_middleware")
             [("message_type", type m);
              ("rate_limit_key", PyStr (limiter_key connection))]))
    [].

(** [RateLimitMiddleware.process], with [now] the reading of [time.time()]
    inside [allow]. *)
Definition rate_limit_process (mw : RateLimitMiddleware) (now : float) (m : Message)
    (connection : Connection) : Outcome Exc Message * RateLimitMiddleware :=
  if negb (enabled mw) then (Return m, mw)
  else
    match py_in_names (type m) ["ping"; "pong"] with
    | Raise e => (Raise (Untyped e), mw)
    | Return true => (Return m, mw)
    | Return false =>
        match allow (limiter_key connection) now (limiter mw) with
        | (Raise e, l) => (Raise (Untyped e), set_limiter l mw)
        | (Return true, l) => (Return m, set_limiter l mw)
        | (Return false, l) =>
            (Raise (Typed (rate_limit_exceeded m connection)), set_limiter l mw)
        end
    end.

(** Calls of [allow] with any keys and clock readings, one after another;
    a call that raises leaves the limiter as it was. *)
Definition allow_calls (calls : list (string * float)) (l : TokenBucketRateLimiter)
    : TokenBucketRateLimiter :=
  foldl (λ l' call, (allow call.1 call.2 l').2) l calls.

(** Every bucket holds between 0 and [burst - 1] tokens. *)
Definition buckets_in_range (l : TokenBucketRateLimiter) : Prop :=
  ∀ key t tokens, buckets l !! key = Some (t, tokens) →
    (0 ≤ tokens ≤ burst l - 1)%Z.

End RateLimitStage.

(** ** core/logging.py: ErrorContextFilter and get_logger *)

Module Logging.

(** A [logging.LogRecord]: the name of its logger, and the attributes set on
    it beside those every record has ([service] and [component] are not
    among the latter). *)
Record LogRecord : Type := mkLogRecord {
  name : string;
  attributes : gmap string PyValue
}.

(** [text.split(".")]. *)
Fixpoint split_dot (text : string) : list string :=
  match text with
  | EmptyString => [EmptyString]
  | String c rest =>
      if Ascii.eqb c "."%char then EmptyString :: split_dot rest
      else
        match split_dot rest with
        | part :: parts => String c part :: parts
        | [] => [String c EmptyString]
        end
  end.

(** The component [ErrorContextFilter.filter] infers from a logger name. *)
Definition inferred_component (logger_name : string) : string :=
  let logger_parts := split_dot logger_name in
  if decide (1 < length logger_parts) then default "unknown" (last logger_parts)
  else "unknown".

(** [ErrorContextFilter(service_name).filter(record)]: the answer and the
    record as the call leaves it. *)
Definition filter (service_name : string) (record : LogRecord) : bool * LogRecord :=
  let attrs1 :=
    match attributes record !! "service" with
    | None => <["service" := PyStr service_name]> (attributes record)
    | Some _ => attributes record
    end in
  let attrs2 :=
    match attrs1 !! "component" with
    | None => <["component" := PyStr (inferred_component (name record))]> attrs1
    | Some _ => attrs1
    end in
  (true, mkLogRecord (name record) attrs2).

(** The name of the logger [get_logger(name)] asks for. *)
Definition get_logger (logger : string) : string :=
  "core." +:+ logger.

End Logging.

(** * Properties *)

(** ** Group index *)

Module GroupIndex.
Import Backends.

Lemma set_groups_id (b : MemoryBackend) : set_groups (groups b) b = b.
Proof. by destruct b. Qed.

Lemma groups_set_groups (g : gmap string (gset string)) (b : MemoryBackend) :
  groups (set_groups g b) = g.
Proof. done. Qed.

Lemma set_groups_twice (g1 g2 : gmap string (gset string)) (b : MemoryBackend) :
  set_groups g1 (set_groups g2 b) = set_groups g1 b.
Proof. done. Qed.

(** [group_add] as one insertion. *)
Lemma group_add_insert (g c : string) (b : MemoryBackend) :
  group_add g c b =
    set_groups (<[g := default ∅ (groups b !! g) ∪ {[c]}]> (groups b)) b.
Proof.
  unfold group_add. f_equal. apply map_eq. intros g'.
  destruct (decide (g = g')) as [<-|Hne].
  - rewrite lookup_alter_eq, lookup_insert_eq.
    destruct (groups b !! g) as [s|] eqn:E; [by rewrite E|by rewrite lookup_insert_eq].
  - rewrite lookup_alter_ne, lookup_insert_ne by done.
    destruct (groups b !! g); [done|]. by rewrite lookup_insert_ne.
Qed.

(** What [group_add] leaves under each key. *)
Lemma group_add_lookup (g c g' : string) (b : MemoryBackend) :
  groups (group_add g c b) !! g' =
    if decide (g = g') then Some (default ∅ (groups b !! g) ∪ {[c]})
    else groups b !! g'.
Proof.
  unfold group_add. rewrite groups_set_groups.
  destruct (decide (g = g')) as [<-|Hne].
  - destruct (groups b !! g) as [s|] eqn:E.
    + by rewrite lookup_alter_eq, E.
    + by rewrite lookup_alter_eq, lookup_insert_eq.
  - rewrite lookup_alter_ne by done.
    destruct (groups b !! g); [done|]. by rewrite lookup_insert_ne.
Qed.

(** What [group_discard] leaves under each key. *)
Lemma group_discard_lookup (g c g' : string) (b : MemoryBackend) :
  groups (group_discard g c b) !! g' =
    if decide (g = g') then
      match groups b !! g with
      | Some s => if decide (s ∖ {[c]} = ∅) then None else Some (s ∖ {[c]})
      | None => None
      end
    else groups b !! g'.
Proof.
  unfold group_discard.
  destruct (groups b !! g) as [s|] eqn:E.
  - rewrite lookup_alter_eq, E. simpl.
    destruct (decide (Some (s ∖ {[c]}) = Some ∅)) as [Heq|Hneq].
    + rewrite groups_set_groups. injection Heq as Heq.
      destruct (decide (g = g')) as [<-|Hne].
      * rewrite lookup_delete_eq. by rewrite decide_True.
      * rewrite lookup_delete_ne by done. by rewrite lookup_alter_ne.
    + rewrite groups_set_groups.
      destruct (decide (g = g')) as [<-|Hne].
      * rewrite lookup_alter_eq, E. simpl.
        rewrite decide_False; [done|]. intros Hs. apply Hneq. by rewrite Hs.
      * by rewrite lookup_alter_ne.
  - destruct (decide (g = g')) as [<-|Hne]; done.
Qed.

Lemma group_step_no_empty (b : MemoryBackend) (op : GroupOp) :
  no_empty_group b → no_empty_group (group_step b op).
Proof.
  intros Hinv g' s. destruct op as [g c|g c]; cbn [group_step].
  - rewrite group_add_lookup. case_decide.
    + intros [= <-]. set_solver.
    + apply Hinv.
  - rewrite group_discard_lookup. case_decide.
    + destruct (groups b !! g); [|done]. case_decide; [done|]. by intros [= <-].
    + apply Hinv.
Qed.

Lemma run_group_ops_no_empty (ops : list GroupOp) (b : MemoryBackend) :
  no_empty_group b → no_empty_group (run_group_ops ops b).
Proof.
  revert b. induction ops as [|op ops IH]; intros b Hb; [done|].
  simpl. apply IH. by apply group_step_no_empty.
Qed.

Lemma new_backend_no_empty : no_empty_group new_backend.
Proof. intros g s. unfold new_backend. simpl. by rewrite lookup_empty. Qed.

(** C3: after any sequence of [group_add] and [group_discard] calls on a new
    backend, a group is a key of the index exactly when its channel set is
    non-empty; discarding the last member of a group deletes its key, after
    which [group_channels] gives the empty set; and [group_channels] of a
    group that is no key gives the empty set. *)
Theorem group_index_invariant (ops : list GroupOp) (g c : string) :
  let b := run_group_ops ops new_backend in
  (is_Some (groups b !! g) ↔ group_channels g b ≠ ∅)
  ∧ (group_channels g b = {[c]} →
       groups (group_discard g c b) !! g = None
       ∧ group_channels g (group_discard g c b) = ∅)
  ∧ (groups b !! g = None → group_channels g b = ∅).
Proof.
  intros b.
  assert (Hinv : no_empty_group b)
    by apply run_group_ops_no_empty, new_backend_no_empty.
  unfold group_channels, _get_group_channels. split; [|split].
  - split.
    + intros [s Hs]. rewrite Hs. simpl. by eapply Hinv.
    + destruct (groups b !! g); [by eexists|]. simpl. congruence.
  - intros Hlast. rewrite group_discard_lookup, decide_True by done.
    destruct (groups b !! g) as [s|]; simpl in *; [|done].
    subst s. rewrite decide_True by set_solver. done.
  - by intros ->.
Qed.

(** C9: [group_add] twice is [group_add] once, on every backend state; and on
    a state reached from a new backend by group operations, [group_discard]
    of a channel that is no member of the group (the group being a key of the
    index or not) returns the state unchanged. *)
Theorem group_ops_idempotent (ops : list GroupOp) (b0 : MemoryBackend) (g c : string) :
  let b := run_group_ops ops new_backend in
  group_add g c (group_add g c b0) = group_add g c b0
  ∧ (c ∉ group_channels g b → group_discard g c b = b)
  ∧ (groups b !! g = None → group_discard g c b = b).
Proof.
  intros b. split; [|split].
  - rewrite !group_add_insert, set_groups_twice, groups_set_groups.
    rewrite lookup_insert_eq, insert_insert_eq. simpl.
    do 2 f_equal. set_solver.
  - intros Hc.
    assert (Hinv : no_empty_group b)
      by apply run_group_ops_no_empty, new_backend_no_empty.
    rewrite <- (set_groups_id b) at 2.
    assert (Hgr : groups (group_discard g c b) = groups b).
    { apply map_eq. intros g'. rewrite group_discard_lookup.
      case_decide as Hg; [subst g'|done].
      unfold group_channels, _get_group_channels in Hc.
      destruct (groups b !! g) as [s|] eqn:E; [|done]. simpl in Hc.
      assert (s ∖ {[c]} = s) as -> by set_solver.
      rewrite decide_False; [done|]. by eapply Hinv. }
    unfold group_discard in *. destruct (groups b !! g); [|by rewrite set_groups_id].
    case_decide; rewrite groups_set_groups in Hgr; by rewrite Hgr.
  - intros Hnone. unfold group_discard. by rewrite Hnone.
Qed.

(** [group_index_invariant] after two members joined one group and one of
    them left: discarding the member that remains deletes the key. *)
Lemma group_index_invariant_witness :
  let b := run_group_ops [GroupAdd "room" "channel.1.1"; GroupAdd "room" "channel.1.2";
                          GroupDiscard "room" "channel.1.1"] new_backend in
  groups (group_discard "room" "channel.1.2" b) !! "room" = None
  ∧ group_channels "room" (group_discard "room" "channel.1.2" b) = ∅.
Proof.
  intros b.
  refine (proj1 (proj2 (group_index_invariant
            [GroupAdd "room" "channel.1.1"; GroupAdd "room" "channel.1.2";
             GroupDiscard "room" "channel.1.1"] "room" "channel.1.2")) _).
  vm_compute. reflexivity.
Defined.

(** [group_ops_idempotent] on a group of one member: discarding a channel
    that is no member changes nothing. *)
Lemma group_ops_idempotent_witness :
  let b := run_group_ops [GroupAdd "room" "channel.1.1"] new_backend in
  group_discard "room" "channel.1.2" b = b
  ∧ group_discard "lobby" "channel.1.1" b = b.
Proof.
  intros b. split.
  - refine (proj1 (proj2 (group_ops_idempotent [GroupAdd "room" "channel.1.1"]
                            new_backend "room" "channel.1.2")) _).
    vm_compute. set_solver.
  - refine (proj2 (proj2 (group_ops_idempotent [GroupAdd "room" "channel.1.1"]
                            new_backend "lobby" "channel.1.1")) _).
    vm_compute. reflexivity.
Defined.

End GroupIndex.

(** ** Channel names *)

Module ChannelNames.
Import Backends.

Lemma append_cons (c : ascii) (a b : string) :
  String c a +:+ b = String c (a +:+ b).
Proof. reflexivity. Qed.

Lemma append_nil (b : string) : "" +:+ b = b.
Proof. reflexivity. Qed.

Lemma append_assoc (a b c : string) : (a +:+ b) +:+ c = a +:+ b +:+ c.
Proof.
  induction a as [|x a IH]; [by rewrite !append_nil|].
  by rewrite !append_cons, IH.
Qed.

Lemma has_dot_app (a b : string) : has_dot (a +:+ b) = has_dot a || has_dot b.
Proof.
  induction a as [|c a IH]; [by rewrite append_nil|].
  rewrite append_cons. simpl. by destruct (Ascii.eqb c ".").
Qed.

Lemma after_last_dot_app (a d : string) :
  has_dot d = false → after_last_dot (a +:+ "." +:+ d) = d.
Proof.
  intros Hd. induction a as [|c a IH].
  - rewrite append_nil, append_cons, append_nil. simpl. by rewrite Hd.
  - rewrite append_cons. simpl. rewrite has_dot_app, append_cons. simpl.
    by rewrite orb_true_r.
Qed.

Lemma pretty_N_go_no_dot (x : N) (s : string) :
  has_dot s = false → has_dot (pretty_N_go x s) = false.
Proof.
  revert s. induction (N.lt_wf_0 x) as [x _ IH]; intros s Hs.
  destruct (decide (x = 0)%N) as [->|Hx].
  - by rewrite pretty_N_go_0.
  - rewrite pretty_N_go_step by lia. apply IH.
    + apply N.div_lt; lia.
    + simpl. rewrite Hs. unfold pretty_N_char. by repeat case_match.
Qed.

Lemma pretty_N_no_dot (x : N) : has_dot (pretty x) = false.
Proof.
  unfold pretty, pretty_N. case_decide; [done|]. by apply pretty_N_go_no_dot.
Qed.

Lemma pretty_Z_no_dot (z : Z) : has_dot (pretty z) = false.
Proof.
  destruct z as [|p|p]; unfold pretty, pretty_Z; [done| |].
  - apply pretty_N_no_dot.
  - rewrite has_dot_app. simpl. apply pretty_N_no_dot.
Qed.

(** Every call steps the counter by one, returning or raising. *)
Lemma new_channel_counter (prefix : string) (t : float) (b : MemoryBackend) :
  _channel_counter (new_channel prefix t b).2 = (_channel_counter b + 1)%Z.
Proof. unfold new_channel. by destruct (py_int _). Qed.

(** A returned name ends in a dot and the decimal of the stepped counter. *)
Lemma new_channel_suffix (prefix : string) (t : float) (b : MemoryBackend) (x : string) :
  (new_channel prefix t b).1 = Return x →
  after_last_dot x = pretty (_channel_counter b + 1)%Z.
Proof.
  unfold new_channel. destruct (py_int _) as [ms|e]; simpl; [|done].
  intros [= <-].
  replace (prefix +:+ "." +:+ pretty ms +:+ "." +:+ pretty (_channel_counter b + 1)%Z)
    with ((prefix +:+ "." +:+ pretty ms) +:+ "." +:+ pretty (_channel_counter b + 1)%Z).
  - apply after_last_dot_app, pretty_Z_no_dot.
  - by rewrite !append_assoc.
Qed.

Lemma new_channel_returns (prefix : string) (t : float) (b : MemoryBackend) :
  float_finite (PrimFloat.mul t 1000) = true →
  ∃ x, (new_channel prefix t b).1 = Return x.
Proof.
  unfold new_channel, float_finite, py_int.
  destruct (Prim2SF _); simpl; intros; by eauto.
Qed.

Lemma run_new_channel_cons (p : string) (t : float) (rest : list (string * float))
    (b : MemoryBackend) :
  (run_new_channel ((p, t) :: rest) b).1 =
    (new_channel p t b).1 :: (run_new_channel rest (new_channel p t b).2).1.
Proof.
  simpl. destruct (new_channel p t b) as [r b1]. simpl.
  by destruct (run_new_channel rest b1).
Qed.

Lemma run_new_channel_length (calls : list (string * float)) (b : MemoryBackend) :
  length (run_new_channel calls b).1 = length calls.
Proof.
  revert b. induction calls as [|[p t] rest IH]; intros b; [done|].
  rewrite run_new_channel_cons. simpl. by rewrite IH.
Qed.

(** The [i]-th call of a run, when it returns, returns a name whose last
    segment is the decimal of the counter stepped [i + 1] times. *)
Lemma run_new_channel_suffix (calls : list (string * float)) (b : MemoryBackend)
    (i : nat) (x : string) :
  (run_new_channel calls b).1 !! i = Some (Return x) →
  after_last_dot x = pretty (_channel_counter b + 1 + Z.of_nat i)%Z.
Proof.
  revert b i. induction calls as [|[p t] rest IH]; intros b i; [done|].
  rewrite run_new_channel_cons. destruct i as [|i]; simpl.
  - intros [= Hx]. apply new_channel_suffix in Hx. rewrite Hx. f_equal. lia.
  - intros Hx. apply IH in Hx. rewrite Hx, new_channel_counter. f_equal. lia.
Qed.

Lemma run_new_channel_returns (calls : list (string * float)) (b : MemoryBackend)
    (i : nat) (p : string) (t : float) :
  calls !! i = Some (p, t) →
  float_finite (PrimFloat.mul t 1000) = true →
  ∃ x, (run_new_channel calls b).1 !! i = Some (Return x).
Proof.
  revert b i. induction calls as [|[p' t'] rest IH]; intros b i; [done|].
  rewrite run_new_channel_cons. destruct i as [|i]; simpl.
  - intros [= -> ->] Hfin. destruct (new_channel_returns p t b Hfin) as [x Hx].
    exists x. by rewrite Hx.
  - intros Hi Hfin. by apply IH.
Qed.

(** C10: in any run of [new_channel] calls on one backend, from any state,
    there is one outcome per call, a call whose clock term is finite returns
    a name, two different calls never return the same name, and so a run in
    which every call returns (10,000 calls, say) returns as many pairwise
    distinct names as there are calls. *)
Theorem new_channel_injective (calls : list (string * float)) (b : MemoryBackend) :
  let results := (run_new_channel calls b).1 in
  length results = length calls
  ∧ (∀ i p t, calls !! i = Some (p, t) →
       float_finite (PrimFloat.mul t 1000) = true →
       ∃ x, results !! i = Some (Return x))
  ∧ (∀ i j x y, i ≠ j →
       results !! i = Some (Return x) → results !! j = Some (Return y) → x ≠ y)
  ∧ (∀ names : list string, results = Return <$> names →
       NoDup names ∧ length names = length calls).
Proof.
  intros results.
  assert (Hdistinct : ∀ i j x y, i ≠ j →
    results !! i = Some (Return x) → results !! j = Some (Return y) → x ≠ y).
  { intros i j x y Hij Hx Hy Heq. subst y.
    apply run_new_channel_suffix in Hx, Hy. rewrite Hx in Hy.
    apply (inj pretty) in Hy. lia. }
  split; [apply run_new_channel_length|].
  split; [intros i p t; apply run_new_channel_returns|].
  split; [exact Hdistinct|].
  intros names Hnames. split.
  - apply NoDup_alt. intros i j x Hi Hj.
    destruct (decide (i = j)) as [|Hne]; [done|]. exfalso.
    apply (Hdistinct i j x x Hne); [| |done].
    + by rewrite Hnames, list_lookup_fmap, Hi.
    + by rewrite Hnames, list_lookup_fmap, Hj.
  - rewrite <- (run_new_channel_length calls b). fold results.
    by rewrite Hnames, length_fmap.
Qed.

(** [new_channel_injective] at three calls, two of them at the same clock
    reading and with the same prefix. *)
Lemma new_channel_injective_witness :
  (run_new_channel [("channel", 1.5%float); ("channel", 1.5%float); ("ws", 2%float)]
     new_backend).1
  = [Return "channel.1500.1"; Return "channel.1500.2"; Return "ws.2000.3"]
  ∧ NoDup ["channel.1500.1"; "channel.1500.2"; "ws.2000.3"].
Proof.
  split; [vm_compute; reflexivity|].
  refine (proj1 (proj2 (proj2 (proj2 (new_channel_injective
            [("channel", 1.5%float); ("channel", 1.5%float); ("ws", 2%float)]
            new_backend)))
          ["channel.1500.1"; "channel.1500.2"; "ws.2000.3"] _)).
  vm_compute. reflexivity.
Defined.

End ChannelNames.

(** ** Connection registry *)

Module Registry.
Import Backends.

Lemma truthy_Some (u : string) : truthy (Some u) = true ↔ u ≠ "".
Proof.
  unfold truthy. destruct (String.eqb_spec u ""); simpl; split; congruence.
Qed.

Lemma elem_of_user_index_add (u c u' c' : string) (uc : gmap string (gset string)) :
  c' ∈ default ∅ (user_index_add u c uc !! u') ↔
  c' ∈ default ∅ (uc !! u') ∨ (u = u' ∧ c' = c).
Proof.
  unfold user_index_add. destruct (decide (u = u')) as [<-|Hne].
  - rewrite lookup_insert_eq. simpl. set_solver.
  - rewrite lookup_insert_ne by done. naive_solver.
Qed.

Lemma elem_of_user_index_discard (u c u' c' : string) (uc : gmap string (gset string)) :
  c' ∈ default ∅ (user_index_discard u c uc !! u') ↔
  c' ∈ default ∅ (uc !! u') ∧ ¬ (u = u' ∧ c' = c).
Proof.
  unfold user_index_discard. destruct (uc !! u) as [s|] eqn:E.
  - case_decide as Hs.
    + destruct (decide (u = u')) as [<-|Hne].
      * rewrite lookup_delete_eq, E. simpl. set_solver.
      * rewrite lookup_delete_ne by done. naive_solver.
    + destruct (decide (u = u')) as [<-|Hne].
      * rewrite lookup_insert_eq, E. simpl. set_solver.
      * rewrite lookup_insert_ne by done. naive_solver.
  - destruct (decide (u = u')) as [<-|Hne]; [|naive_solver].
    rewrite E. simpl. set_solver.
Qed.

Lemma user_index_add_nonempty (u c u' : string) (uc : gmap string (gset string)) (s : gset string) :
  (∀ u0 s0, uc !! u0 = Some s0 → s0 ≠ ∅) →
  user_index_add u c uc !! u' = Some s → s ≠ ∅.
Proof.
  intros Hne. unfold user_index_add. destruct (decide (u = u')) as [<-|Hu].
  - rewrite lookup_insert_eq. intros [= <-]. set_solver.
  - rewrite lookup_insert_ne by done. apply Hne.
Qed.

Lemma user_index_discard_nonempty (u c u' : string) (uc : gmap string (gset string)) (s : gset string) :
  (∀ u0 s0, uc !! u0 = Some s0 → s0 ≠ ∅) →
  user_index_discard u c uc !! u' = Some s → s ≠ ∅.
Proof.
  intros Hne. unfold user_index_discard. destruct (uc !! u) as [s0|] eqn:E; [|apply Hne].
  case_decide as Hs.
  - destruct (decide (u = u')) as [<-|Hu].
    + by rewrite lookup_delete_eq.
    + rewrite lookup_delete_ne by done. apply Hne.
  - destruct (decide (u = u')) as [<-|Hu].
    + rewrite lookup_insert_eq. by intros [= <-].
    + rewrite lookup_insert_ne by done. apply Hne.
Qed.

Lemma user_index_add_keys (u c u' : string) (uc : gmap string (gset string)) :
  is_Some (user_index_add u c uc !! u') → u' = u ∨ is_Some (uc !! u').
Proof.
  unfold user_index_add. destruct (decide (u = u')) as [<-|Hu]; [by left|].
  rewrite lookup_insert_ne by done. by right.
Qed.

Lemma user_index_discard_keys (u c u' : string) (uc : gmap string (gset string)) :
  is_Some (user_index_discard u c uc !! u') → is_Some (uc !! u').
Proof.
  unfold user_index_discard. destruct (uc !! u) as [s0|] eqn:E; [|done].
  case_decide.
  - destruct (decide (u = u')) as [<-|Hu].
    + rewrite lookup_delete_eq. by intros [? ?].
    + by rewrite lookup_delete_ne.
  - destruct (decide (u = u')) as [<-|Hu].
    + by rewrite E.
    + by rewrite lookup_insert_ne.
Qed.

Lemma new_backend_registry_inv : registry_inv new_backend.
Proof.
  split; unfold new_backend, registered_user, registry_get_user_connections; simpl.
  - intros c. rewrite lookup_empty. split; [set_solver|by intros [? ?]].
  - intros u s. by rewrite lookup_empty.
  - intros u. rewrite lookup_empty. by intros [? ?].
  - intros c u. by rewrite lookup_empty.
Qed.

Lemma new_backend_index_sound : index_sound new_backend.
Proof.
  intros u c. unfold registry_get_user_connections, new_backend. simpl.
  rewrite lookup_empty. set_solver.
Qed.

Lemma registered_user_add (c c' : string) (u : option string)
    (m : list (string * PyValue)) (g : gset string) (h : float) (b : MemoryBackend) :
  registered_user c' (registry_add_connection c u m g h b) =
    if decide (c = c') then Some u else registered_user c' b.
Proof.
  unfold registered_user, registry_add_connection. simpl.
  case_decide as Hc; [subst|].
  - by rewrite lookup_insert_eq.
  - by rewrite lookup_insert_ne.
Qed.

Lemma registered_user_remove (c c' : string) (u : option string) (b : MemoryBackend) :
  registered_user c' (registry_remove_connection c u b) =
    if decide (c = c') then None else registered_user c' b.
Proof.
  unfold registered_user, registry_remove_connection. simpl.
  case_decide as Hc; [subst|].
  - by rewrite lookup_delete_eq.
  - by rewrite lookup_delete_ne.
Qed.

Lemma registered_user_update (c c' : string) (g : gset string) (b : MemoryBackend) :
  registered_user c' (registry_update_groups c g b) = registered_user c' b.
Proof.
  unfold registered_user, registry_update_groups. simpl.
  destruct (decide (c = c')) as [<-|Hc].
  - rewrite lookup_alter_eq. by destruct (_registry_connection_data b !! c).
  - by rewrite lookup_alter_ne.
Qed.

Lemma is_Some_registered_user (c : string) (b : MemoryBackend) :
  is_Some (registered_user c b) ↔ is_Some (_registry_connection_data b !! c).
Proof. unfold registered_user. by rewrite fmap_is_Some. Qed.

(** Who is listed under [u'] after an add. *)
Lemma user_connections_add (c c' u' : string) (u : option string)
    (m : list (string * PyValue)) (g : gset string) (h : float) (b : MemoryBackend) :
  c' ∈ registry_get_user_connections u' (registry_add_connection c u m g h b) ↔
  c' ∈ registry_get_user_connections u' b ∨ (u = Some u' ∧ u' ≠ "" ∧ c' = c).
Proof.
  unfold registry_get_user_connections, registry_add_connection. simpl.
  destruct u as [u|]; [|naive_solver].
  destruct (truthy (Some u)) eqn:Ht.
  - apply truthy_Some in Ht. rewrite elem_of_user_index_add. naive_solver.
  - assert (u = "") as ->.
    { destruct (decide (u = "")); [done|]. apply truthy_Some in n. congruence. }
    naive_solver.
Qed.

(** Who is listed under [u'] after a remove. *)
Lemma user_connections_remove (c c' u' : string) (u : option string) (b : MemoryBackend) :
  c' ∈ registry_get_user_connections u' (registry_remove_connection c u b) ↔
  c' ∈ registry_get_user_connections u' b ∧ ¬ (u = Some u' ∧ u' ≠ "" ∧ c' = c).
Proof.
  unfold registry_get_user_connections, registry_remove_connection. simpl.
  destruct u as [u|]; [|naive_solver].
  destruct (truthy (Some u)) eqn:Ht.
  - apply truthy_Some in Ht. rewrite elem_of_user_index_discard. naive_solver.
  - assert (u = "") as ->.
    { destruct (decide (u = "")); [done|]. apply truthy_Some in n. congruence. }
    naive_solver.
Qed.

Lemma registry_step_inv (b : MemoryBackend) (op : RegistryOp) :
  registry_inv b → registry_inv (registry_step b op).
Proof.
  intros [Hprim Hnonempty Hkeys Hidx]. destruct op as [c u m g h|c u|c g]; cbn [registry_step].
  - split.
    + intros c'. unfold registry_add_connection. simpl.
      rewrite elem_of_union, elem_of_singleton, Hprim.
      destruct (decide (c = c')) as [<-|Hc].
      * rewrite lookup_insert_eq. naive_solver.
      * rewrite lookup_insert_ne by done. naive_solver.
    + intros u' s. unfold registry_add_connection. simpl.
      destruct u as [u|]; [|apply Hnonempty].
      destruct (truthy (Some u)); [|apply Hnonempty].
      by apply user_index_add_nonempty.
    + intros u'. unfold registry_add_connection. simpl.
      destruct u as [u|]; [|apply Hkeys].
      destruct (truthy (Some u)) eqn:Ht; [|apply Hkeys].
      intros [->|Hk]%user_index_add_keys; [by apply truthy_Some|by apply Hkeys].
    + intros c' u'. rewrite registered_user_add, user_connections_add.
      case_decide as Hc; [subst c'|].
      * intros [= ->] Hu. by right.
      * intros Hr Hu. left. by apply Hidx.
  - split.
    + intros c'. unfold registry_remove_connection. simpl.
      rewrite elem_of_difference, elem_of_singleton, Hprim.
      destruct (decide (c = c')) as [<-|Hc].
      * rewrite lookup_delete_eq. split; [naive_solver|by intros [? ?]].
      * rewrite lookup_delete_ne by done. naive_solver.
    + intros u' s. unfold registry_remove_connection. simpl.
      destruct u as [u|]; [|apply Hnonempty].
      destruct (truthy (Some u)); [|apply Hnonempty].
      by apply user_index_discard_nonempty.
    + intros u'. unfold registry_remove_connection. simpl.
      destruct u as [u|]; [|apply Hkeys].
      destruct (truthy (Some u)) eqn:Ht; [|apply Hkeys].
      intros Hk%user_index_discard_keys. by apply Hkeys.
    + intros c' u'. rewrite registered_user_remove, user_connections_remove.
      case_decide as Hc; [done|].
      intros Hr Hu. split; [by apply Hidx|]. naive_solver.
  - split.
    + intros c'. unfold registry_update_groups. simpl. rewrite Hprim.
      destruct (decide (c = c')) as [<-|Hc].
      * rewrite lookup_alter_eq. by rewrite fmap_is_Some.
      * by rewrite lookup_alter_ne.
    + apply Hnonempty.
    + apply Hkeys.
    + intros c' u'. rewrite registered_user_update. apply Hidx.
Qed.

Lemma run_registry_ops_inv (ops : list RegistryOp) (b : MemoryBackend) :
  registry_inv b → registry_inv (run_registry_ops ops b).
Proof.
  revert b. induction ops as [|op ops IH]; intros b Hb; [done|].
  simpl. apply IH. by apply registry_step_inv.
Qed.

Lemma listed_key_nonempty (b : MemoryBackend) (u c : string) :
  registry_inv b → c ∈ registry_get_user_connections u b → u ≠ "".
Proof.
  intros Hinv Hin. apply (inv_keys b Hinv).
  unfold registry_get_user_connections in Hin.
  destruct (_registry_user_connections b !! u); [by eexists|set_solver].
Qed.

Lemma registry_step_sound (b : MemoryBackend) (op : RegistryOp) :
  names_registered_user op b = true →
  registry_inv b → index_sound b → index_sound (registry_step b op).
Proof.
  intros Hname Hinv Hsound u' c'. destruct op as [c u m g h|c u|c g]; cbn [registry_step].
  - rewrite user_connections_add, registered_user_add.
    intros [Hin|(-> & Hu & ->)].
    + apply Hsound in Hin. case_decide as Hc; [subst c'|done].
      simpl in Hname. rewrite Hin in Hname. apply bool_decide_eq_true in Hname.
      by rewrite <- Hname.
    + by rewrite decide_True.
  - rewrite user_connections_remove, registered_user_remove.
    intros [Hin Hnot]. pose proof (Hsound _ _ Hin) as Hreg.
    case_decide as Hc; [subst c'|done]. exfalso.
    simpl in Hname. rewrite Hreg in Hname. apply bool_decide_eq_true in Hname.
    apply Hnot. split; [done|]. split; [|done].
    by eapply listed_key_nonempty.
  - rewrite registered_user_update. apply Hsound.
Qed.

Lemma run_registry_ops_sound (ops : list RegistryOp) (b : MemoryBackend) :
  consistent_calls ops b = true →
  registry_inv b → index_sound b → index_sound (run_registry_ops ops b).
Proof.
  revert b. induction ops as [|op ops IH]; intros b Hcons Hinv Hsound; [done|].
  simpl in Hcons. apply andb_prop in Hcons as [Hop Hrest].
  simpl. apply IH; [done|by apply registry_step_inv|by apply registry_step_sound].
Qed.

(** C4, as the code has it: after any sequence of registry calls on a new
    backend, (1) the primary set and the primary map hold the same connection
    ids; (2) a connection registered with a non-empty user_id is listed under
    that user_id in the secondary index; (3) a user_id is a key of the
    secondary index exactly when some connection is listed under it, so that
    removing the last connection of a user deletes the key and
    [registry_get_user_connections] then gives the empty set; (4) when every
    add and remove call names the user_id its connection is registered with
    (if it is registered), every id listed under a user_id is in the primary
    set, registered with that user_id. *)
Theorem registry_indexes_agree (ops : list RegistryOp) :
  let b := run_registry_ops ops new_backend in
  (∀ c, c ∈ _registry_connections b ↔ is_Some (_registry_connection_data b !! c))
  ∧ (∀ c u, registered_user c b = Some (Some u) → u ≠ "" →
       c ∈ _registry_connections b ∧ c ∈ registry_get_user_connections u b)
  ∧ (∀ u, is_Some (_registry_user_connections b !! u) ↔
       registry_get_user_connections u b ≠ ∅)
  ∧ (∀ u c, registry_get_user_connections u b = {[c]} →
       _registry_user_connections (registry_remove_connection c (Some u) b) !! u = None
       ∧ registry_get_user_connections u (registry_remove_connection c (Some u) b) = ∅)
  ∧ (consistent_calls ops new_backend = true →
       ∀ u c, c ∈ registry_get_user_connections u b →
         c ∈ _registry_connections b ∧ registered_user c b = Some (Some u)).
Proof.
  intros b.
  assert (Hinv : registry_inv b)
    by apply run_registry_ops_inv, new_backend_registry_inv.
  split; [apply (inv_primary b Hinv)|].
  split.
  { intros c u Hreg Hu. split; [|by apply (inv_indexed b Hinv)].
    apply (inv_primary b Hinv), is_Some_registered_user. by rewrite Hreg. }
  split.
  { intros u. unfold registry_get_user_connections. split.
    - intros [s Hs]. rewrite Hs. simpl. by eapply (inv_nonempty b Hinv).
    - destruct (_registry_user_connections b !! u); [by eexists|]. simpl. congruence. }
  split.
  { intros u c Hlast.
    assert (Hu : u ≠ "").
    { apply (listed_key_nonempty b u c Hinv). rewrite Hlast. set_solver. }
    assert (Hempty : registry_get_user_connections u
                       (registry_remove_connection c (Some u) b) = ∅).
    { apply set_eq. intros c'. rewrite user_connections_remove, Hlast. set_solver. }
    split; [|done].
    assert (Hinv' : registry_inv (registry_remove_connection c (Some u) b))
      by apply (registry_step_inv b (RegRemove c (Some u)) Hinv).
    unfold registry_get_user_connections in Hempty.
    destruct (_registry_user_connections _ !! u) as [s|] eqn:E; [|done].
    simpl in Hempty. by apply (inv_nonempty _ Hinv') in E. }
  intros Hcons u c Hin.
  assert (Hsound : index_sound b).
  { apply run_registry_ops_sound;
      [done|apply new_backend_registry_inv|apply new_backend_index_sound]. }
  pose proof (Hsound u c Hin) as Hreg. split; [|done].
  apply (inv_primary b Hinv), is_Some_registered_user. by rewrite Hreg.
Qed.

(** C4 as stated fails both ways on the code: a connection registered
    without a user_id is in the primary set and nowhere in the secondary
    index; and a connection removed under another user_id than it was added
    with stays listed in the secondary index after it left the primary set. *)
Lemma registry_indexes_disagree :
  let anonymous := run_registry_ops [RegAdd "conn-1" None [] ∅ 60%float] new_backend in
  let stale := run_registry_ops
                 [RegAdd "conn-1" (Some "alice") [] ∅ 60%float; RegRemove "conn-1" None]
                 new_backend in
  ("conn-1" ∈ _registry_connections anonymous
   ∧ _registry_user_connections anonymous = ∅)
  ∧ ("conn-1" ∈ registry_get_user_connections "alice" stale
     ∧ "conn-1" ∉ _registry_connections stale).
Proof.
  cbv zeta. split; split.
  - vm_compute. set_solver.
  - reflexivity.
  - unfold run_registry_ops, registry_get_user_connections. simpl.
    unfold user_index_add. rewrite lookup_insert_eq. set_solver.
  - unfold run_registry_ops. simpl. set_solver.
Qed.

(** The fourth part of [registry_indexes_agree] at a concrete, consistent
    call sequence. *)
Lemma registry_indexes_agree_witness :
  let ops := [RegAdd "conn-1" (Some "alice") [] ∅ 60%float;
              RegAdd "conn-2" (Some "alice") [] ∅ 60%float;
              RegRemove "conn-1" (Some "alice")] in
  "conn-2" ∈ _registry_connections (run_registry_ops ops new_backend)
  ∧ registered_user "conn-2" (run_registry_ops ops new_backend) = Some (Some "alice").
Proof.
  cbv zeta.
  refine (proj2 (proj2 (proj2 (proj2 (registry_indexes_agree _)))) _ "alice" "conn-2" _).
  - vm_compute. reflexivity.
  - vm_compute. set_solver.
Defined.

End Registry.

(** ** Channel queues *)

Module Queues.
Import Backends.

Lemma receive_no_time_left (b : MemoryBackend) (channel : string)
    (queue arrivals : list PyValue) (t : option float) :
  channels b !! channel = Some queue →
  no_time_left t = true →
  receive channel t arrivals b
  = (Done (Raise TimeoutError),
     set_channels (<[channel := queue ++ arrivals]> (channels b)) b).
Proof.
  intros Hqueue Hleft. unfold receive, get_message, wait_for_get.
  by rewrite Hqueue, Hleft.
Qed.

(** C5: [receive] on a channel that exists, with a timeout that is not
    infinite, an empty queue and no arrival before the timeout, raises
    TimeoutError and leaves the queue empty; that outcome is none of the
    outcomes that return a message; [receive] on a channel that does not
    exist returns [None] whatever the timeout, and that outcome is not the
    timeout outcome. A message is returned when one is on the queue, or
    arrives, and the timeout is [None] or positive; with a timeout that is
    zero or negative the wait is cancelled before it starts, so the call
    raises TimeoutError also when messages are queued, and these stay on
    the queue. With no message ever and a timeout that is [None] or
    infinite, the call does not end. *)
Theorem receive_timeout_distinct (b : MemoryBackend) (channel : string) (timeout : float) :
  (channels b !! channel = Some [] →
   waits_for_ever (Some timeout) = false →
     (receive channel (Some timeout) [] b).1 = Done (Raise TimeoutError)
     ∧ channels (receive channel (Some timeout) [] b).2 !! channel = Some [])
  ∧ (∀ item : PyValue, Done (Raise TimeoutError) ≠ Done (Return item))
  ∧ (channels b !! channel = None →
     ∀ (t : option float) (arrivals : list PyValue),
       receive channel t arrivals b = (Done (Return PyNone), b))
  ∧ (∀ (queue arrivals : list PyValue) (item : PyValue) (t : option float),
       channels b !! channel = Some queue →
       no_time_left t = false →
       head (queue ++ arrivals) = Some item →
       (receive channel t arrivals b).1 = Done (Return item))
  ∧ (∀ (queue arrivals : list PyValue) (t : option float),
       channels b !! channel = Some queue →
       no_time_left t = true →
       (receive channel t arrivals b).1 = Done (Raise TimeoutError)
       ∧ channels (receive channel t arrivals b).2 !! channel = Some (queue ++ arrivals))
  ∧ (∀ t : option float,
       channels b !! channel = Some [] →
       waits_for_ever t = true →
       (receive channel t [] b).1 = Pending).
Proof.
  split; [|split; [|split; [|split; [|split]]]].
  - intros Hempty Hends. unfold receive, get_message, wait_for_get. rewrite Hempty, Hends.
    destruct (no_time_left (Some timeout)); simpl; by rewrite lookup_insert_eq.
  - done.
  - unfold receive, get_message. by intros ->.
  - intros queue arrivals item t Hqueue Hleft Hhead.
    unfold receive, get_message, wait_for_get. rewrite Hqueue, Hleft.
    destruct (queue ++ arrivals) as [|x rest]; [done|].
    simpl in Hhead. by injection Hhead as ->.
  - intros queue arrivals t Hqueue Hleft.
    rewrite (receive_no_time_left b channel queue arrivals t Hqueue Hleft).
    simpl. by rewrite lookup_insert_eq.
  - intros t Hempty Hever. unfold receive, get_message, wait_for_get.
    rewrite Hempty, Hever.
    assert (no_time_left t = false) as ->; [|done].
    destruct t as [t|]; [|done]. simpl in *.
    rewrite FloatAxioms.eqb_spec in Hever. rewrite FloatAxioms.leb_spec.
    change (Prim2SF infinity) with (S754_infinity false) in Hever.
    change (Prim2SF 0) with (S754_zero false).
    by destruct (Prim2SF t) as [[]|[]| |[] ? ?].
Qed.

(** [receive_timeout_distinct] on a backend with one subscribed channel
    whose queue is empty: that channel times out, an unknown one gives
    [None]. *)
Lemma receive_timeout_distinct_witness :
  let b := set_channels {["channel.1.1" := []]} new_backend in
  (receive "channel.1.1" (Some 0.5%float) [] b).1 = Done (Raise TimeoutError)
  ∧ receive "channel.1.2" (Some 0.5%float) [] b = (Done (Return PyNone), b).
Proof.
  intros b. split.
  - refine (proj1 (proj1 (receive_timeout_distinct b "channel.1.1" 0.5%float) _ _)).
    + apply lookup_singleton_eq.
    + reflexivity.
  - refine (proj1 (proj2 (proj2 (receive_timeout_distinct b "channel.1.2" 0.5%float)))
              _ (Some 0.5%float) []).
    apply lookup_singleton_ne. discriminate.
Defined.

End Queues.

(** ** Token bucket *)

Module TokenBucket.
Import RateLimit.

Lemma refill_set_bucket (key : string) (e : float * Z) (l : TokenBucketRateLimiter)
    (elapsed : float) :
  refill (set_bucket key e l) elapsed = refill l elapsed.
Proof. done. Qed.

(** [allow] reads and writes the bucket of its key only. *)
Lemma allow_bucket_step (key : string) (now : float) (l : TokenBucketRateLimiter) :
  allow key now l =
    match bucket_step l (buckets l !! key) now with
    | Return (ok, e) => (Return ok, set_bucket key e l)
    | Raise e => (Raise e, l)
    end.
Proof.
  unfold allow, bucket_step. destruct (buckets l !! key) as [[last_check tokens]|]; [|done].
  destruct (refill l _) as [added|e]; [|done]. by case_match.
Qed.

Lemma bucket_step_set_bucket (key : string) (e : float * Z) (l : TokenBucketRateLimiter)
    (entry : option (float * Z)) (now : float) :
  bucket_step (set_bucket key e l) entry now = bucket_step l entry now.
Proof. done. Qed.

Lemma bucket_run_set_bucket (key : string) (e : float * Z) (l : TokenBucketRateLimiter)
    (entry : option (float * Z)) (times : list float) :
  bucket_run (set_bucket key e l) entry times = bucket_run l entry times.
Proof.
  revert entry. induction times as [|t rest IH]; intros entry; [done|].
  simpl. rewrite bucket_step_set_bucket.
  destruct (bucket_step l entry t) as [[ok e']|]; [|done]. by rewrite IH.
Qed.

(** The answers of a run for one key are those of its bucket alone. *)
Lemma allow_at_bucket_run (key : string) (times : list float) (l : TokenBucketRateLimiter) :
  (allow_at key times l).1 = bucket_run l (buckets l !! key) times.
Proof.
  revert l. induction times as [|t rest IH]; intros l; [done|].
  simpl. rewrite allow_bucket_step.
  destruct (bucket_step l (buckets l !! key) t) as [[ok e]|err]; [|done].
  specialize (IH (set_bucket key e l)).
  destruct (allow_at key rest (set_bucket key e l)) as [oks l''].
  simpl in *. rewrite IH, bucket_run_set_bucket. simpl.
  by rewrite lookup_insert_eq.
Qed.

(** C2, as the code has it: for every key, a first call stores
    [(now, burst - 1)] and allows; a later call at [t] on a stored
    [(last_check, tokens)] adds [int((t - last_check) * (rate / window))]:
    [rate / window] is the exact quotient of the two ints rounded once to a
    binary64, the product is a binary64 operation and [int] truncates; with
    [refilled = min(burst, tokens + added)], it stores [(t, refilled - 1)]
    and allows when [refilled > 0], else stores [(t, 0)] and denies. The
    refill is computed whenever the quotient is (the window is not zero and
    the quotient is no larger than the largest float) and the product is
    finite; a later call with a window of zero raises ZeroDivisionError and
    stores nothing. With rate 10, window 60 and burst 10, ten calls at 0 are
    allowed, the eleventh at 0 is denied, one call at 6 is allowed and the
    next at 6 is denied. *)
Theorem allow_token_bucket (key : string) (t : float) (l : TokenBucketRateLimiter) :
  (buckets l !! key = None →
     allow key t l = (Return true, set_bucket key (t, burst l - 1)%Z l))
  ∧ (∀ (last_check per_second : float) (tokens added : Z),
       buckets l !! key = Some (last_check, tokens) →
       py_truediv (rate l) (window l) = Return per_second →
       py_int (PrimFloat.mul (PrimFloat.sub t last_check) per_second) = Return added →
       allow key t l =
         if (0 <? Z.min (burst l) (tokens + added))%Z
         then (Return true, set_bucket key (t, Z.min (burst l) (tokens + added) - 1)%Z l)
         else (Return false, set_bucket key (t, 0%Z) l))
  ∧ (∀ (elapsed per_second : float),
       py_truediv (rate l) (window l) = Return per_second →
       float_finite (PrimFloat.mul elapsed per_second) = true →
       ∃ added, refill l elapsed = Return added)
  ∧ (∀ q, window l ≠ 0%Z → rounded_quotient (rate l) (window l) = Some q →
       py_truediv (rate l) (window l) = Return (SF2Prim q))
  ∧ (∀ (last_check : float) (tokens : Z),
       buckets l !! key = Some (last_check, tokens) →
       window l = 0%Z →
       allow key t l = (Raise ZeroDivisionError, l))
  ∧ (allow_at key (replicate 11 0%float ++ [6%float; 6%float]) (new_limiter 10 60 10)).1
      = replicate 10 true ++ [false; true; false].
Proof.
  split; [|split; [|split; [|split; [|split]]]].
  - intros Hnew. unfold allow. by rewrite Hnew.
  - intros last_check per_second tokens added Hold Hquot Hadd. unfold allow, refill.
    by rewrite Hold, Hquot, Hadd.
  - intros elapsed per_second Hquot. unfold refill. rewrite Hquot.
    unfold float_finite, py_int.
    destruct (Prim2SF _); intros; by eauto.
  - intros q Hwin Hq. unfold py_truediv. apply Z.eqb_neq in Hwin. by rewrite Hwin, Hq.
  - intros last_check tokens Hold Hwin. unfold allow, refill, py_truediv.
    by rewrite Hold, Hwin.
  - rewrite allow_at_bucket_run. vm_compute. reflexivity.
Qed.

(** C2 as stated fails on the code where the rounded product falls below the
    exact quotient: with rate 1, window 49 and burst 1, the first call at 0
    stores (0, 0); at 49 the code adds int(49 * (1/49)) = int(0.9999999999999999)
    = 0 and denies, where floor(49 * 1 / 49) = 1 would refill to 1 and allow. *)
Lemma allow_rounds_below_quotient :
  (allow_at "k" [0%float; 49%float] (new_limiter 1 49 1)).1 = [true; false]
  ∧ buckets (allow_at "k" [0%float] (new_limiter 1 49 1)).2 !! "k" = Some (0%float, 0%Z)
  ∧ refill (new_limiter 1 49 1) (PrimFloat.sub 49 0) = Return 0%Z
  ∧ spec_refilled 1 0 1 49 (49 - 0) = 1%Z.
Proof. vm_compute. repeat split; reflexivity. Qed.

(** The later-call part of [allow_token_bucket] at the call at 6 of the
    scenario: the bucket holds (0, 0), one token is added, the call is
    allowed and (6, 0) is stored. *)
Lemma allow_token_bucket_witness :
  let l := set_bucket "k" (0%float, 0%Z) (new_limiter 10 60 10) in
  allow "k" 6%float l = (Return true, set_bucket "k" (6%float, 0%Z) l).
Proof.
  cbv zeta.
  refine (proj1 (proj2 (allow_token_bucket "k" 6%float _)) 0%float _ 0%Z 1%Z _ _ _).
  - vm_compute. reflexivity.
  - vm_compute. reflexivity.
  - vm_compute. reflexivity.
Defined.

End TokenBucket.

(** ** Pipeline stages *)

Module Stages.
Import Pipeline Dispatch Wire.






Section Validation.

Variable json_dumps : PyValue → Outcome string string.

(** C7, as the code has it: the stage raises ValidationError exactly when
    [json.dumps] refuses the message or the serialised text is longer than
    the maximum; a message within the limit whose [is_expired()] is true is
    dropped ([None], no error), and one whose [is_expired()] is false is
    returned unchanged. *)
Theorem validation_process_policy (max_message_size : Z) (now : float) (m : Message)
    (connection : Connection) :
  ((∃ e, validation_process json_dumps max_message_size now m connection = Raise (Typed e)
         ∧ kind e = ValidationError)
     ↔ ((∃ text, json_dumps (to_dict m) = Raise text)
        ∨ (∃ text, json_dumps (to_dict m) = Return text
                   ∧ (max_message_size < Z.of_nat (String.length text))%Z)))
  ∧ (∀ text, json_dumps (to_dict m) = Return text →
       (Z.of_nat (String.length text) ≤ max_message_size)%Z →
       (is_expired now m = Return true →
          validation_process json_dumps max_message_size now m connection = Return None)
       ∧ (is_expired now m = Return false →
          validation_process json_dumps max_message_size now m connection = Return (Some m))).
Proof.
  unfold validation_process. split.
  - destruct (json_dumps (to_dict m)) as [text|text].
    + destruct (Z.ltb_spec max_message_size (Z.of_nat (String.length text))) as [Hbig|Hfit].
      * split; [intros _; right; by exists text|]. intros _. by eexists.
      * split.
        -- intros (e & He & _). by destruct (is_expired now m) as [[]|].
        -- intros [[text' [=]]|(text' & [= <-] & Hbig)]. lia.
    + split; [intros _; left; by exists text|]. intros _. by eexists.
  - intros text -> Hfit.
    destruct (Z.ltb_spec max_message_size (Z.of_nat (String.length text))); [lia|].
    split; by intros ->.
Qed.

End Validation.

(** C7 as stated fails on the code for a message [json.dumps] refuses: with
    data that is no JSON value and a maximum of 1 MiB, no serialised size
    exceeds the maximum, and the stage raises ValidationError instead of
    returning the message. *)
Lemma validation_refuses_unserialisable :
  let c := mkConnection "channel.1.1" (Some "alice") ∅ CONNECTED 0 60 0 0 [] in
  let m := mkMessage (PyStr "chat") (PyObject "set" false) (PyStr "channel.1.1") PyNone
             PyNone (PyPriority NORMAL) PyNone (PyFloat 0) in
  sample_dumps (to_dict m) = Raise "Object of type set is not JSON serializable"
  ∧ is_expired 1 m = Return false
  ∧ validation_process sample_dumps 1048576 1 m c
    = Raise (Typed (validation_failed "Object of type set is not JSON serializable" m c)).
Proof. cbv zeta. repeat split. Qed.

(** [validation_process_policy] at a message with a TTL of 5 seconds created
    at time 0: dropped at 5.1, returned at 4.9, and refused when the maximum
    is below its size. *)
Lemma validation_process_policy_witness :
  let c := mkConnection "channel.1.1" (Some "alice") ∅ CONNECTED 0 60 0 0 [] in
  let m := mkMessage (PyStr "chat") PyNone (PyStr "channel.1.1") PyNone PyNone
             (PyPriority NORMAL) (PyInt 5) (PyFloat 0) in
  validation_process sample_dumps 1048576 5.1 m c = Return None
  ∧ validation_process sample_dumps 1048576 4.9 m c = Return (Some m)
  ∧ ∃ e, validation_process sample_dumps 3 4.9 m c = Raise (Typed e)
         ∧ kind e = ValidationError.
Proof.
  intros c m. split; [|split].
  - refine (proj1 (proj2 (validation_process_policy sample_dumps 1048576 5.1 m c)
                     "{chat}" _ _) _);
      [reflexivity|vm_compute; discriminate|vm_compute; reflexivity].
  - refine (proj2 (proj2 (validation_process_policy sample_dumps 1048576 4.9 m c)
                     "{chat}" _ _) _);
      [reflexivity|vm_compute; discriminate|vm_compute; reflexivity].
  - refine (proj2 (proj1 (validation_process_policy sample_dumps 3 4.9 m c)) _).
    right. exists "{chat}". split; [reflexivity|reflexivity].
Defined.

End Stages.

(** ** Consumers *)

Module Consumers.
Import Pipeline Dispatch.

Section Frames.

Variable S : Type.
Variable json_loads : string → Outcome Builtin PyValue.

(** A frame that yields a message is a JSON object that is no pong, and the
    message is built from its payload, the consumer's own channel_name and
    the clock. *)
Lemma read_frame_message (raw : string) (w w' : World S) (m : Message) :
  read_frame json_loads raw w = (Return (Some m), w') →
  ∃ payload p,
    json_loads raw = Return (PyDict payload)
    ∧ is_pong (default (PyStr "message") (dict_get "type" payload)) = false
    ∧ message_priority payload = Return p
    ∧ m = build_message payload p (channel_name (own w)) (clock w (ticks w))
    ∧ channel_name (own w') = channel_name (own w)
    ∧ websocket (own w') = websocket (own w)
    ∧ others w' = others w
    ∧ app w' = app w.
Proof.
  unfold read_frame. destruct (json_loads raw) as [v|e]; [|done].
  destruct v as [| | | | | |payload| |]; try done.
  destruct (is_pong _) eqn:Hpong; [done|].
  destruct (message_priority payload) as [p|e] eqn:Hp; [|done].
  simpl. intros [= <- <-]. by exists payload, p.
Qed.

Lemma py_in_names_agree (v1 v2 : option PyValue) (names : list string) :
  v1 = v2 →
  py_in_names (default (PyStr "normal") v1) names
  = py_in_names (default (PyStr "normal") v2) names.
Proof. by intros ->. Qed.

(** Payloads that agree on every key but sender_id read as the same frame. *)
Lemma read_frame_ignores_sender_id (raw1 raw2 : string)
    (d1 d2 : list (string * PyValue)) (w : World S) :
  json_loads raw1 = Return (PyDict d1) →
  json_loads raw2 = Return (PyDict d2) →
  (∀ k, k ≠ "sender_id" → dict_get k d1 = dict_get k d2) →
  (read_frame json_loads raw1 w).1 = (read_frame json_loads raw2 w).1.
Proof.
  intros H1 H2 Hagree. unfold read_frame. rewrite H1, H2.
  assert (Htype : dict_get "type" d1 = dict_get "type" d2) by by apply Hagree.
  assert (Hdata : dict_get "data" d1 = dict_get "data" d2) by by apply Hagree.
  assert (Hmeta : dict_get "metadata" d1 = dict_get "metadata" d2) by by apply Hagree.
  assert (Httl : dict_get "ttl_seconds" d1 = dict_get "ttl_seconds" d2) by by apply Hagree.
  assert (Hprio : dict_get "priority" d1 = dict_get "priority" d2) by by apply Hagree.
  rewrite Htype. destruct (is_pong _); [done|].
  unfold message_priority, build_message. rewrite Hprio, Htype, Hdata, Hmeta, Httl.
  destruct (py_in_names _ _) as [[]|]; [|done..].
  by destruct (default (PyStr "normal") (dict_get "priority" d2)).
Qed.

(** C8: the Message a consumer builds has the consumer's own channel_name as
    sender_id; every frame that is read into a message gives one whose
    sender_id is the channel_name of the processing connection; two payloads
    that agree on every field but sender_id are read into the same message;
    and that message is what either consumer passes to its pipeline. *)
Theorem sender_id_is_own_channel (raw : string) (w : World S) :
  (∀ payload p self_channel now,
     sender_id (build_message payload p self_channel now) = PyStr self_channel)
  ∧ (∀ m w', read_frame json_loads raw w = (Return (Some m), w') →
       sender_id m = PyStr (channel_name (own w)))
  ∧ (∀ raw' d d', json_loads raw = Return (PyDict d) →
       json_loads raw' = Return (PyDict d') →
       (∀ k, k ≠ "sender_id" → dict_get k d = dict_get k d') →
       (read_frame json_loads raw w).1 = (read_frame json_loads raw' w).1)
  ∧ (∀ m w', read_frame json_loads raw w = (Return (Some m), w') →
       (∀ self, CoreConsumer.try_body json_loads self raw w
                = CoreConsumer.dispatch self m w')
       ∧ (∀ self, ChannelConsumer.try_body json_loads self raw w
                  = ChannelConsumer.dispatch self m w')).
Proof.
  split; [done|]. split; [|split].
  - intros m w' (payload & p & _ & _ & _ & -> & _)%read_frame_message. done.
  - intros raw' d d'. apply read_frame_ignores_sender_id.
  - intros m w' Hread. split; intros self.
    + unfold CoreConsumer.try_body. by rewrite Hread.
    + unfold ChannelConsumer.try_body. by rewrite Hread.
Qed.

(** What [send_json] changes: it returns, appends one frame to the
    consumer's own transport, and leaves everything else as it was. *)
Lemma send_json_frame (f : Frame) (w : World S) :
  (send_json f w).1 = Return tt
  ∧ websocket (own (send_json f w).2) = websocket (own w) ++ [f]
  ∧ others (send_json f w).2 = others w
  ∧ app (send_json f w).2 = app w
  ∧ ticks (send_json f w).2 = ticks w
  ∧ own (send_json f w).2 = websocket_send f (own w).
Proof. done. Qed.

Variable rate_limit_is_caught : bool.

Lemma handle_message_caught (self : CoreConsumer.BaseConsumer S) (raw : string)
    (w w2 : World S) (e : BaseError) :
  CoreConsumer.try_body json_loads self raw w = (Raise (Typed e), w2) →
  CoreConsumer.caught rate_limit_is_caught (kind e) = true →
  CoreConsumer.handle_message json_loads rate_limit_is_caught self raw w
  = send_json (SentError (to_response e)) w2.
Proof.
  intros Hbody Hkind. unfold CoreConsumer.handle_message. by rewrite Hbody, Hkind.
Qed.

(** A RateLimitError is answered like the three classes the [except] clause
    names only if its class inherits from one of them; it leaves
    [handle_message] otherwise. *)
Lemma handle_message_rate_limit (self : CoreConsumer.BaseConsumer S) (raw : string)
    (w w2 : World S) (e : BaseError) :
  CoreConsumer.try_body json_loads self raw w = (Raise (Typed e), w2) →
  kind e = RateLimitError →
  CoreConsumer.handle_message json_loads rate_limit_is_caught self raw w
  = if rate_limit_is_caught then send_json (SentError (to_response e)) w2
    else (Raise (Typed e), w2).
Proof.
  intros Hbody Hkind. unfold CoreConsumer.handle_message. by rewrite Hbody, Hkind.
Qed.

(** X25: typed errors raised while a frame is processed are answered on the
    own connection. An error of a class that the [except] clause of the
    core [handle_message] catches (AuthenticationError, ValidationError and
    MessageError always; RateLimitError when its class derives from one of
    them, which [core/exceptions.py] decides), raised by a middleware stack
    or by the [receive] hook, does not leave [handle_message]: the call
    returns, having appended the error's response envelope to the transport
    of the consumer's own connection and changed nothing else of the world
    the raising code left, the other connections included (reading the frame
    itself touches neither a transport nor another connection). *)
Theorem typed_errors_answered (self : CoreConsumer.BaseConsumer S) (raw : string)
    (w : World S) :
  (∀ m w1 e w2,
     read_frame json_loads raw w = (Return (Some m), w1) →
     CoreConsumer.run_stacks (CoreConsumer.middleware_stacks self) m w1
       = (Raise (Typed e), w2) →
     CoreConsumer.caught rate_limit_is_caught (kind e) = true →
     CoreConsumer.handle_message json_loads rate_limit_is_caught self raw w
     = send_json (SentError (to_response e)) w2)
  ∧ (∀ m w1 m' w1' e w2,
       read_frame json_loads raw w = (Return (Some m), w1) →
       CoreConsumer.run_stacks (CoreConsumer.middleware_stacks self) m w1
         = (Return (Some m'), w1') →
       CoreConsumer.receive self m' w1' = (Raise (Typed e), w2) →
       CoreConsumer.caught rate_limit_is_caught (kind e) = true →
       CoreConsumer.handle_message json_loads rate_limit_is_caught self raw w
       = send_json (SentError (to_response e)) w2)
  ∧ (∀ k, CoreConsumer.caught rate_limit_is_caught k
          = match k with
            | AuthenticationError | ValidationError | MessageError => true
            | RateLimitError => rate_limit_is_caught
            end)
  ∧ (∀ (f : Frame) (w2 : World S),
       (send_json f w2).1 = Return tt
       ∧ websocket (own (send_json f w2).2) = websocket (own w2) ++ [f]
       ∧ others (send_json f w2).2 = others w2
       ∧ app (send_json f w2).2 = app w2)
  ∧ (∀ m w1, read_frame json_loads raw w = (Return (Some m), w1) →
       websocket (own w1) = websocket (own w)
       ∧ others w1 = others w
       ∧ app w1 = app w).
Proof.
  split; [|split; [|split; [|split]]].
  - intros m w1 e w2 Hread Hstacks Hkind. apply handle_message_caught; [|done].
    unfold CoreConsumer.try_body, CoreConsumer.dispatch. by rewrite Hread, Hstacks.
  - intros m w1 m' w1' e w2 Hread Hstacks Hrecv Hkind.
    apply handle_message_caught; [|done].
    unfold CoreConsumer.try_body, CoreConsumer.dispatch. by rewrite Hread, Hstacks.
  - by intros [].
  - done.
  - intros m w1 (payload & p & _ & _ & _ & _ & _ & Hsent & Hothers & Happ)%read_frame_message.
    done.
Qed.

(** C1: the code at a frame that is no JSON. When [json.loads] raises
    JSONDecodeError, the core [handle_message] raises the ValidationError
    (INVALID_JSON) it builds from within its [except] clause: the error
    leaves [handle_message], nothing is sent and the world is unchanged,
    although ValidationError is a class its other [except] clause catches,
    and the same error raised inside the [try] is answered with its
    envelope on the own connection. *)
Theorem invalid_json_not_answered (self : CoreConsumer.BaseConsumer S) (raw text : string)
    (w : World S) :
  json_loads raw = Raise (JSONDecodeError text) →
  CoreConsumer.handle_message json_loads rate_limit_is_caught self raw w
    = (Raise (Typed (invalid_json text (own w))), w)
  ∧ kind (invalid_json text (own w)) = ValidationError
  ∧ CoreConsumer.caught rate_limit_is_caught ValidationError = true
  ∧ (∀ (self' : CoreConsumer.BaseConsumer S) (raw' : string) (w1 w2 : World S),
       CoreConsumer.try_body json_loads self' raw' w1
         = (Raise (Typed (invalid_json text (own w))), w2) →
       CoreConsumer.handle_message json_loads rate_limit_is_caught self' raw' w1
       = send_json (SentError (to_response (invalid_json text (own w)))) w2).
Proof.
  intros Hloads. split; [|split; [done|split; [done|]]].
  - unfold CoreConsumer.handle_message, CoreConsumer.try_body, read_frame.
    by rewrite Hloads.
  - intros self' raw' w1 w2 Hbody. by apply handle_message_caught.
Qed.

End Frames.

(** [sender_id_is_own_channel] at a frame that names another channel as its
    sender and at the empty object: both are read into the same message,
    whose sender_id is the channel_name of the processing connection. *)
Lemma sender_id_is_own_channel_witness :
  (read_frame sample_loads spoofed_frame sample_world).1
  = (read_frame sample_loads "{}" sample_world).1
  ∧ (read_frame sample_loads spoofed_frame sample_world).1
    = Return (Some (mkMessage (PyStr "message") PyNone (PyStr "channel.1.1") PyNone PyNone
                      (PyPriority NORMAL) PyNone (PyFloat 1700000000))).
Proof.
  split; [|reflexivity].
  refine (proj1 (proj2 (proj2 (sender_id_is_own_channel unit sample_loads
                                 spoofed_frame sample_world)))
            "{}" [("sender_id", PyStr "channel.9.9")] [] eq_refl eq_refl _).
  intros k Hk. cbn [dict_get].
  destruct (String.eqb_spec "sender_id" k); [congruence|done].
Defined.

(** [invalid_json_not_answered] at a lone brace sent to the consumer of
    [sample_world]: the ValidationError leaves [handle_message], and the
    transport of the connection stays empty. *)
Lemma invalid_json_not_answered_witness :
  CoreConsumer.handle_message sample_loads true CoreConsumer.sample_consumer "{" sample_world
  = (Raise (Typed (invalid_json
                     "Expecting property name enclosed in double quotes: line 1 column 2 (char 1)"
                     (own sample_world))),
     sample_world)
  ∧ websocket (own sample_world) = [].
Proof.
  split; [|reflexivity].
  exact (proj1 (invalid_json_not_answered unit sample_loads true
                  CoreConsumer.sample_consumer "{"
                  "Expecting property name enclosed in double quotes: line 1 column 2 (char 1)"
                  sample_world eq_refl)).
Defined.

(** [typed_errors_answered] at an empty JSON object sent by the
    unauthenticated connection of [sample_world]: the authentication stage
    raises, the call returns, one envelope is on the connection's own
    transport and the other connection is as it was. *)
Lemma typed_errors_answered_witness :
  (CoreConsumer.handle_message sample_loads false CoreConsumer.sample_consumer "{}"
     sample_world).1 = Return tt
  ∧ websocket (own (CoreConsumer.handle_message sample_loads false
                      CoreConsumer.sample_consumer "{}" sample_world).2)
    = [SentError (mkErrorResponse (DefaultCode AuthenticationError)
                    "Authentication required"
                    (Some (mkErrorContext None (Some "channel.1.1")
                             (Some "authentication_middleware")
                             [("message_type", PyStr "message")])))]
  ∧ others (CoreConsumer.handle_message sample_loads false
              CoreConsumer.sample_consumer "{}" sample_world).2
    = others sample_world.
Proof.
  pose (m := build_message [] NORMAL "channel.1.1" 1700000000%float).
  pose (w1 := mkWorld
                (mkConnection "channel.1.1" None ∅ CONNECTED 0 60 2 1700000000%float [])
                (others sample_world) (clock sample_world) 2 tt).
  pose (e := mkBaseError AuthenticationError "Authentication required" None
               (Some (mkErrorContext None (Some "channel.1.1")
                        (Some "authentication_middleware")
                        [("message_type", PyStr "message")]))
               []).
  rewrite (proj1 (typed_errors_answered unit sample_loads false
                    CoreConsumer.sample_consumer "{}" sample_world)
             m w1 e w1 eq_refl eq_refl eq_refl).
  repeat split.
Defined.

End Consumers.

(** ** Runs of mixed backend calls *)

Module BackendRuns.
Import Backends.

Lemma elem_of_group_add (g c g' c' : string) (b : MemoryBackend) :
  c' ∈ group_channels g' (group_add g c b) ↔
  (g = g' ∧ c = c') ∨ c' ∈ group_channels g' b.
Proof.
  unfold group_channels, _get_group_channels. rewrite GroupIndex.group_add_lookup.
  case_decide as Hg; [subst g'|naive_solver]. simpl. set_solver.
Qed.

Lemma elem_of_group_discard (g c g' c' : string) (b : MemoryBackend) :
  c' ∈ group_channels g' (group_discard g c b) ↔
  c' ∈ group_channels g' b ∧ ¬ (g = g' ∧ c = c').
Proof.
  unfold group_channels, _get_group_channels. rewrite GroupIndex.group_discard_lookup.
  case_decide as Hg; [subst g'|naive_solver].
  destruct (groups b !! g) as [s|]; simpl; [|set_solver].
  case_decide as Hs; simpl; set_solver.
Qed.

Lemma elem_of_flush (g' c' : string) (b : MemoryBackend) :
  c' ∈ group_channels g' (flush b) ↔ False.
Proof.
  unfold group_channels, _get_group_channels, flush. simpl.
  rewrite lookup_empty. set_solver.
Qed.

Lemma index_step_member (g c : string) (b : MemoryBackend) (op : IndexOp) (before : bool) :
  (c ∈ group_channels g b ↔ before = true) →
  c ∈ group_channels g (index_step b op) ↔ member_after g c before op = true.
Proof.
  intros Hbefore. destruct op as [g0 c0|g0 c0|]; cbn [index_step member_after].
  - rewrite elem_of_group_add, Hbefore. case_bool_decide; naive_solver.
  - rewrite elem_of_group_discard, Hbefore. case_bool_decide; naive_solver.
  - rewrite elem_of_flush. naive_solver.
Qed.

Lemma index_step_no_empty (b : MemoryBackend) (op : IndexOp) :
  no_empty_group b → no_empty_group (index_step b op).
Proof.
  intros Hinv. destruct op as [g c|g c|].
  - apply (GroupIndex.group_step_no_empty b (GroupAdd g c) Hinv).
  - apply (GroupIndex.group_step_no_empty b (GroupDiscard g c) Hinv).
  - intros g s. unfold flush. simpl. by rewrite lookup_empty.
Qed.

Lemma run_index_ops_no_empty (ops : list IndexOp) (b : MemoryBackend) :
  no_empty_group b → no_empty_group (run_index_ops ops b).
Proof.
  revert b. induction ops as [|op ops IH]; intros b Hb; [done|].
  simpl. apply IH. by apply index_step_no_empty.
Qed.

(** X1: after any sequence of [group_add], [group_discard] and [flush] calls
    on a new backend, a channel is in [group_channels] of a group exactly
    when the last call that concerns the pair (an add or a discard of it, or
    a flush) is an add; and a group is a key of the index exactly when it
    has a member. *)
Theorem group_membership_last_call (ops : list IndexOp) (g c : string) :
  (c ∈ group_channels g (run_index_ops ops new_backend) ↔ last_call_adds g c ops = true)
  ∧ (is_Some (groups (run_index_ops ops new_backend) !! g)
       ↔ ∃ c', c' ∈ group_channels g (run_index_ops ops new_backend)).
Proof.
  split.
  - unfold run_index_ops, last_call_adds.
    induction ops as [|op ops IH] using rev_ind.
    + simpl. unfold group_channels, _get_group_channels, new_backend. simpl.
      rewrite lookup_empty. set_solver.
    + rewrite !foldl_snoc. by apply index_step_member.
  - assert (Hinv : no_empty_group (run_index_ops ops new_backend))
      by apply run_index_ops_no_empty, GroupIndex.new_backend_no_empty.
    unfold group_channels, _get_group_channels.
    destruct (groups (run_index_ops ops new_backend) !! g) as [s|] eqn:E; simpl.
    + split; [|by eexists]. intros _. apply set_choose_L. by eapply Hinv.
    + split; [by intros [? ?]|]. intros [c' Hc']. set_solver.
Qed.

Lemma backend_step_counter (b : MemoryBackend) (op : BackendOp) :
  (_channel_counter b ≤ _channel_counter (backend_step b op).2)%Z.
Proof.
  destruct op as [o|o|prefix t]; simpl.
  - destruct o as [g c|g c|]; simpl.
    + unfold group_add. simpl. lia.
    + unfold group_discard. destruct (groups b !! g); [|lia].
      case_decide; simpl; lia.
    + lia.
  - destruct o; simpl; lia.
  - pose proof (ChannelNames.new_channel_counter prefix t b) as Hc.
    destruct (new_channel prefix t b) as [[name|e] b']; simpl in *; lia.
Qed.

Lemma backend_step_name (b : MemoryBackend) (op : BackendOp) (name : string) :
  (backend_step b op).1 = Some name →
  after_last_dot name = pretty (_channel_counter b + 1)%Z
  ∧ _channel_counter (backend_step b op).2 = (_channel_counter b + 1)%Z.
Proof.
  destruct op as [o|o|prefix t]; simpl; [done..|].
  pose proof (ChannelNames.new_channel_counter prefix t b) as Hc.
  pose proof (ChannelNames.new_channel_suffix prefix t b) as Hs.
  destruct (new_channel prefix t b) as [[name'|e] b']; simpl in *; [|done].
  intros [= ->]. split; [by apply Hs|done].
Qed.

Lemma run_backend_ops_cons (op : BackendOp) (rest : list BackendOp) (b : MemoryBackend) :
  (run_backend_ops (op :: rest) b).1 =
    match (backend_step b op).1 with
    | Some name => name :: (run_backend_ops rest (backend_step b op).2).1
    | None => (run_backend_ops rest (backend_step b op).2).1
    end.
Proof.
  simpl. destruct (backend_step b op) as [r b1]. simpl.
  by destruct (run_backend_ops rest b1).
Qed.

(** Every name of a run carries a counter value above the counter the run
    started from. *)
Lemma run_backend_ops_above (ops : list BackendOp) (b : MemoryBackend) (name : string) :
  name ∈ (run_backend_ops ops b).1 →
  ∃ k, (_channel_counter b < k)%Z ∧ after_last_dot name = pretty k.
Proof.
  revert b. induction ops as [|op rest IH]; intros b; [by intros ?%elem_of_nil|].
  rewrite run_backend_ops_cons.
  pose proof (backend_step_counter b op) as Hmono.
  destruct ((backend_step b op).1) as [name'|] eqn:Hstep.
  - apply backend_step_name in Hstep as [Hsuffix Hcount].
    intros [->|Hin]%elem_of_cons.
    + exists (_channel_counter b + 1)%Z. split; [lia|done].
    + apply IH in Hin as (k & Hk & Hname). exists k. split; [lia|done].
  - intros Hin. apply IH in Hin as (k & Hk & Hname). exists k. split; [lia|done].
Qed.

(** X2: in any run of backend calls (group calls, [flush], registry calls
    and [new_channel] calls with any prefixes and clock readings), from any
    state, the names [new_channel] returns are pairwise distinct: no call,
    [flush] included, sets the counter back. *)
Theorem names_unique_across_calls (ops : list BackendOp) (b : MemoryBackend) :
  NoDup (run_backend_ops ops b).1.
Proof.
  revert b. induction ops as [|op rest IH]; intros b; [constructor|].
  rewrite run_backend_ops_cons.
  destruct ((backend_step b op).1) as [name|] eqn:Hstep; [|apply IH].
  apply backend_step_name in Hstep as [Hsuffix Hcount].
  constructor; [|apply IH].
  intros (k & Hk & Hname)%run_backend_ops_above.
  rewrite Hsuffix in Hname. apply (inj pretty) in Hname. lia.
Qed.

End BackendRuns.

(** ** More of the connection registry *)

Module RegistryCalls.
Import Backends.

Lemma connections_dom (b : MemoryBackend) :
  registry_inv b → _registry_connections b = dom (_registry_connection_data b).
Proof.
  intros Hinv. apply set_eq. intros c.
  by rewrite elem_of_dom, (inv_primary b Hinv).
Qed.

Lemma reachable_registry_inv (ops : list RegistryOp) :
  registry_inv (run_registry_ops ops new_backend).
Proof. apply Registry.run_registry_ops_inv, Registry.new_backend_registry_inv. Qed.

Lemma reachable_index_sound (ops : list RegistryOp) :
  consistent_calls ops new_backend = true →
  index_sound (run_registry_ops ops new_backend).
Proof.
  intros Hcons. apply Registry.run_registry_ops_sound;
    [done|apply Registry.new_backend_registry_inv|apply Registry.new_backend_index_sound].
Qed.

(** X3: after any sequence of registry calls on a new backend,
    [registry_count_connections] is the number of entries of the primary
    map; adding a connection_id that is not registered raises the count by
    one and adding a registered one leaves it; removing a registered
    connection_id lowers it by one and removing an unknown one leaves it;
    [registry_update_groups] never changes it. *)
Theorem registry_count_tracks_calls (ops : list RegistryOp) (c : string)
    (u : option string) (m : list (string * PyValue)) (g : gset string) (h : float) :
  let b := run_registry_ops ops new_backend in
  registry_count_connections b = size (_registry_connection_data b)
  ∧ registry_count_connections (registry_add_connection c u m g h b)
    = (if decide (c ∈ _registry_connections b) then registry_count_connections b
       else S (registry_count_connections b))
  ∧ (if decide (c ∈ _registry_connections b)
     then S (registry_count_connections (registry_remove_connection c u b))
     else registry_count_connections (registry_remove_connection c u b))
    = registry_count_connections b
  ∧ registry_count_connections (registry_update_groups c g b)
    = registry_count_connections b.
Proof.
  intros b. pose proof (reachable_registry_inv ops) as Hinv. fold b in Hinv.
  unfold registry_count_connections. split; [|split; [|split]].
  - by rewrite (connections_dom b Hinv), size_dom.
  - unfold registry_add_connection. simpl. case_decide as Hc.
    + f_equal. set_solver.
    + rewrite size_union by set_solver. rewrite size_singleton. lia.
  - unfold registry_remove_connection. simpl. case_decide as Hc.
    + rewrite size_difference by set_solver. rewrite size_singleton.
      assert (size (_registry_connections b) ≠ 0); [|lia].
      intros Hz%size_empty_inv. set_solver.
    + f_equal. set_solver.
  - done.
Qed.

Lemma get_groups_update (c c' : string) (g : gset string) (b : MemoryBackend) :
  registry_get_connection_groups c' (registry_update_groups c g b) =
    if decide (c = c' ∧ is_Some (_registry_connection_data b !! c)) then g
    else registry_get_connection_groups c' b.
Proof.
  unfold registry_get_connection_groups, registry_update_groups. simpl.
  destruct (decide (c = c')) as [<-|Hne].
  - rewrite lookup_alter_eq.
    destruct (_registry_connection_data b !! c) as [d|] eqn:E; simpl.
    + rewrite decide_True; [done|]. split; [done|by eexists].
    + rewrite decide_False; [done|]. intros [_ [? ?]]. done.
  - rewrite lookup_alter_ne by done. rewrite decide_False; [done|]. naive_solver.
Qed.

(** X4: the groups snapshot of the registry. [registry_get_connection_groups]
    after [registry_update_groups c g] gives [g] for [c] when [c] is
    registered and what it gave before for every other connection;
    updating an unknown connection_id changes nothing at all; after
    [registry_add_connection] the snapshot is the set passed, and after
    [registry_remove_connection] it is empty. The update touches neither
    the primary set nor the user index. *)
Theorem registry_groups_round_trip (b : MemoryBackend) (c c' : string)
    (u : option string) (m : list (string * PyValue)) (g : gset string) (h : float) :
  registry_get_connection_groups c' (registry_update_groups c g b)
    = (if decide (c = c' ∧ is_Some (_registry_connection_data b !! c)) then g
       else registry_get_connection_groups c' b)
  ∧ (_registry_connection_data b !! c = None → registry_update_groups c g b = b)
  ∧ registry_get_connection_groups c (registry_add_connection c u m g h b) = g
  ∧ registry_get_connection_groups c (registry_remove_connection c u b) = ∅
  ∧ _registry_connections (registry_update_groups c g b) = _registry_connections b
  ∧ _registry_user_connections (registry_update_groups c g b)
    = _registry_user_connections b.
Proof.
  split; [apply get_groups_update|]. split; [|split; [|split; [|split]]].
  - intros Hnone. unfold registry_update_groups, set_registry.
    destruct b as [gr su cn ch cs cd uc]. simpl in *. f_equal.
    apply map_eq. intros i. destruct (decide (c = i)) as [<-|Hne].
    + by rewrite lookup_alter_eq, Hnone.
    + by rewrite lookup_alter_ne.
  - unfold registry_get_connection_groups, registry_add_connection. simpl.
    by rewrite lookup_insert_eq.
  - unfold registry_get_connection_groups, registry_remove_connection. simpl.
    by rewrite lookup_delete_eq.
  - done.
  - done.
Qed.

Lemma user_index_discard_add (u c : string) (uc : gmap string (gset string)) :
  (∀ u0 s0, uc !! u0 = Some s0 → s0 ≠ ∅) →
  c ∉ default ∅ (uc !! u) →
  user_index_discard u c (user_index_add u c uc) = uc.
Proof.
  intros Hne Hc. unfold user_index_discard, user_index_add.
  rewrite lookup_insert_eq.
  destruct (uc !! u) as [s|] eqn:E; simpl in *.
  - assert ((s ∪ {[c]}) ∖ {[c]} = s) as -> by set_solver.
    rewrite decide_False by by eapply Hne.
    rewrite insert_insert_eq. by apply insert_id.
  - rewrite decide_True by set_solver.
    rewrite delete_insert_eq. by apply delete_id.
Qed.

Lemma user_index_discard_absent (u c : string) (uc : gmap string (gset string)) :
  (∀ u0 s0, uc !! u0 = Some s0 → s0 ≠ ∅) →
  c ∉ default ∅ (uc !! u) →
  user_index_discard u c uc = uc.
Proof.
  intros Hne Hc. unfold user_index_discard.
  destruct (uc !! u) as [s|] eqn:E; simpl in *; [|done].
  assert (s ∖ {[c]} = s) as -> by set_solver.
  rewrite decide_False by by eapply Hne. by apply insert_id.
Qed.

(** X5: on a state reached from a new backend by registry calls that name
    each connection with the user_id it is registered with, a connection_id
    that is not registered is listed nowhere, so that removing it changes
    nothing, and adding it and then removing it under the same user_id
    gives back the state exactly. *)
Theorem registry_add_remove_round_trip (ops : list RegistryOp) (c : string)
    (u : option string) (m : list (string * PyValue)) (g : gset string) (h : float) :
  consistent_calls ops new_backend = true →
  _registry_connection_data (run_registry_ops ops new_backend) !! c = None →
  registry_remove_connection c u (run_registry_ops ops new_backend)
    = run_registry_ops ops new_backend
  ∧ registry_remove_connection c u
      (registry_add_connection c u m g h (run_registry_ops ops new_backend))
    = run_registry_ops ops new_backend.
Proof.
  intros Hcons Hnone. set (b := run_registry_ops ops new_backend) in *.
  pose proof (reachable_registry_inv ops) as Hinv. fold b in Hinv.
  pose proof (reachable_index_sound ops Hcons) as Hsound. fold b in Hsound.
  assert (Hcs : c ∉ _registry_connections b).
  { rewrite (inv_primary b Hinv), Hnone. by intros [? ?]. }
  assert (Hlisted : ∀ u', c ∉ default ∅ (_registry_user_connections b !! u')).
  { intros u' Hin. apply Hsound in Hin. unfold registered_user in Hin.
    by rewrite Hnone in Hin. }
  pose proof (inv_nonempty b Hinv) as Hne.
  unfold registry_remove_connection, registry_add_connection, set_registry.
  destruct b as [gr su cn ch cs cd uc]. simpl in *. split.
  - f_equal.
    + set_solver.
    + by apply delete_id.
    + destruct u as [u|]; [|done]. destruct (truthy (Some u)); [|done].
      by apply user_index_discard_absent.
  - f_equal.
    + set_solver.
    + rewrite delete_insert_eq. by apply delete_id.
    + destruct u as [u|]; [|done]. destruct (truthy (Some u)); [|done].
      by apply user_index_discard_add.
Qed.

(** The round trip at a second connection of a user who has one already. *)
Lemma registry_add_remove_round_trip_witness :
  let b := run_registry_ops [RegAdd "conn-1" (Some "alice") [] ∅ 60%float] new_backend in
  registry_remove_connection "conn-2" (Some "alice") b = b
  ∧ registry_remove_connection "conn-2" (Some "alice")
      (registry_add_connection "conn-2" (Some "alice") [] {["room"]} 30%float b) = b.
Proof.
  intros b.
  refine (registry_add_remove_round_trip
            [RegAdd "conn-1" (Some "alice") [] ∅ 60%float] "conn-2" (Some "alice")
            [] {["room"]} 30%float _ _).
  - vm_compute. reflexivity.
  - vm_compute. reflexivity.
Defined.

End RegistryCalls.

(** ** Publish, subscribe and group_send *)

Module Queueing.
Import Backends PubSub.

Lemma pending_lookup (s : Subscriptions) (c : string) :
  pending s !! c = channel_queue s !! c ≫= (λ q, queue_items s !! q).
Proof. unfold pending. by rewrite lookup_omap. Qed.

Lemma foldr_queue_put_lookup (m : PyValue) (l : list nat)
    (items : gmap nat (list PyValue)) (q : nat) :
  NoDup l →
  foldr (queue_put m) items l !! q =
    if decide (q ∈ l) then (λ x, x ++ [m]) <$> items !! q else items !! q.
Proof.
  induction 1 as [|a l Ha Hl IH]; cbn [foldr].
  - rewrite decide_False; [done|]. by intros ?%elem_of_nil.
  - unfold queue_put at 1. destruct (decide (a = q)) as [->|Hne].
    + rewrite lookup_alter_eq, IH, decide_False by done.
      rewrite decide_True; [done|]. by left.
    + rewrite lookup_alter_ne, IH by done.
      destruct (decide (q ∈ l)) as [Hin|Hout].
      * rewrite decide_True; [done|]. by right.
      * rewrite decide_False; [done|]. intros [->|?]%elem_of_cons; done.
Qed.

Lemma unlistened_no_queue (s : Subscriptions) (c : string) :
  subscriptions_inv s → listeners s !! c = None → channel_queue s !! c = None.
Proof.
  intros Hinv Hl. destruct (channel_queue s !! c) as [q|] eqn:E; [|done].
  apply (inv_queue s Hinv) in E as (_ & _ & Hq). congruence.
Qed.

(** What [publish] leaves on the queue of each channel. *)
Lemma publish_pending (c : string) (m : PyValue) (s : Subscriptions) :
  subscriptions_inv s →
  pending (publish c m s) = alter (λ l, l ++ [m]) c (pending s).
Proof.
  intros Hinv. apply map_eq. intros c'. rewrite lookup_alter, !pending_lookup.
  unfold publish. destruct (listeners s !! c) as [queues|] eqn:El.
  - simpl. destruct (channel_queue s !! c) as [q|] eqn:Ec.
    + pose proof (inv_queue s Hinv c q Ec) as (_ & _ & Hq).
      assert (queues = {[q]}) as -> by congruence.
      rewrite elements_singleton. simpl.
      case_decide as Hc; [subst c'|].
      * rewrite Ec. simpl. unfold queue_put. by rewrite lookup_alter_eq.
      * destruct (channel_queue s !! c') as [q'|] eqn:Ec'; simpl; [|done].
        unfold queue_put. rewrite lookup_alter_ne; [done|].
        intros ->. apply Hc. by apply (inv_distinct s Hinv c c' q').
    + pose proof (inv_unsubscribed s Hinv c Ec) as Hq. rewrite El in Hq.
      simpl in Hq. subst queues. rewrite elements_empty. simpl.
      case_decide as Hc; [subst c'|done]. by rewrite Ec.
  - rewrite (unlistened_no_queue s c Hinv El).
    case_decide as Hc; [subst c'|done].
    by rewrite (unlistened_no_queue s c Hinv El).
Qed.

Lemma publish_inv (c : string) (m : PyValue) (s : Subscriptions) :
  subscriptions_inv s → subscriptions_inv (publish c m s).
Proof.
  intros Hinv. unfold publish. destruct (listeners s !! c) as [queues|]; [|done].
  destruct Hinv as [Hq Hu Hd]. split; simpl; [|done..].
  intros c' q' Hc'. destruct (Hq c' q' Hc') as (Hlt & Hsome & Hl).
  split; [done|]. split; [|done].
  rewrite foldr_queue_put_lookup by apply NoDup_elements.
  case_decide; [|done]. by rewrite fmap_is_Some.
Qed.

Lemma subscribe_inv (c : string) (s : Subscriptions) :
  subscriptions_inv s → subscriptions_inv (subscribe c s).
Proof.
  intros [Hq Hu Hd]. unfold subscribe.
  destruct (channel_queue s !! c) as [q|] eqn:Ec.
  - destruct (Hq c q Ec) as (Hlt & Hsome & Hl). split; simpl.
    + intros c' q' Hc'. destruct (Hq c' q' Hc') as (? & ? & Hl').
      split; [done|]. split; [done|].
      destruct (decide (c = c')) as [<-|Hne].
      * rewrite lookup_insert_eq, Hl. simpl.
        assert (q' = q) as -> by congruence. f_equal. set_solver.
      * by rewrite lookup_insert_ne.
    + intros c' Hc'. destruct (decide (c = c')) as [<-|Hne]; [congruence|].
      rewrite lookup_insert_ne by done. by apply Hu.
    + done.
  - pose proof (Hu c Ec) as Hempty. split; simpl.
    + intros c' q'. destruct (decide (c = c')) as [<-|Hne].
      * rewrite !lookup_insert_eq. intros [= <-].
        split; [lia|]. split; [by rewrite lookup_insert_eq|].
        rewrite Hempty. f_equal. set_solver.
      * rewrite (lookup_insert_ne (channel_queue s)) by done. intros Hc'.
        destruct (Hq c' q' Hc') as (? & ? & ?).
        split; [lia|]. split.
        -- rewrite lookup_insert_ne by lia. done.
        -- by rewrite lookup_insert_ne.
    + intros c'. destruct (decide (c = c')) as [<-|Hne].
      * by rewrite lookup_insert_eq.
      * rewrite !lookup_insert_ne by done. apply Hu.
    + intros c1 c2 q'.
      destruct (decide (c = c1)) as [<-|H1], (decide (c = c2)) as [<-|H2];
        rewrite ?lookup_insert_eq, ?lookup_insert_ne by done; [done|..].
      * intros [= <-] Hc2. apply Hq in Hc2 as (? & _). lia.
      * intros Hc1 [= <-]. apply Hq in Hc1 as (? & _). lia.
      * apply Hd.
Qed.

Lemma unsubscribe_inv (c : string) (s : Subscriptions) :
  subscriptions_inv s → subscriptions_inv (unsubscribe c s).
Proof.
  intros [Hq Hu Hd]. unfold unsubscribe.
  destruct (channel_queue s !! c) as [q|] eqn:Ec; [|done].
  destruct (Hq c q Ec) as (Hlt & Hsome & Hl). split; simpl.
  - intros c' q'. destruct (decide (c = c')) as [<-|Hne].
    + by rewrite lookup_delete_eq.
    + rewrite lookup_delete_ne, lookup_insert_ne by done. apply Hq.
  - intros c'. destruct (decide (c = c')) as [<-|Hne].
    + intros _. rewrite lookup_insert_eq, Hl. simpl. set_solver.
    + rewrite lookup_delete_ne, lookup_insert_ne by done. apply Hu.
  - intros c1 c2 q'.
    destruct (decide (c = c1)) as [<-|H1]; [by rewrite lookup_delete_eq|].
    destruct (decide (c = c2)) as [<-|H2]; [by rewrite lookup_delete_eq|].
    rewrite !lookup_delete_ne by done. apply Hd.
Qed.

Lemma queue_get_inv (c : string) (s s' : Subscriptions) (item : PyValue) :
  subscriptions_inv s → queue_get c s = Some (item, s') → subscriptions_inv s'.
Proof.
  intros [Hq Hu Hd]. unfold queue_get.
  destruct (channel_queue s !! c) as [q|] eqn:Ec; [|done].
  destruct (queue_items s !! q) as [[|x rest]|] eqn:Eq; [done| |done].
  intros [= <- <-]. split; simpl; [|done..].
  intros c' q' Hc'. destruct (Hq c' q' Hc') as (? & ? & ?).
  split; [done|]. split; [|done].
  destruct (decide (q = q')) as [<-|Hne].
  - by rewrite lookup_insert_eq.
  - by rewrite lookup_insert_ne.
Qed.

Lemma clear_inv (s : Subscriptions) : subscriptions_inv (clear s).
Proof. split; unfold clear; simpl; intros *; by rewrite ?lookup_empty. Qed.

Lemma queue_step_inv (s : Subscriptions) (op : QueueOp) :
  subscriptions_inv s → subscriptions_inv (queue_step s op).
Proof.
  intros Hinv. destruct op as [c|c|c m|c|]; simpl.
  - by apply subscribe_inv.
  - by apply unsubscribe_inv.
  - by apply publish_inv.
  - destruct (queue_get c s) as [[item s']|] eqn:E; [|done].
    by eapply queue_get_inv.
  - apply clear_inv.
Qed.

Lemma no_subscriptions_inv : subscriptions_inv no_subscriptions.
Proof. split; unfold no_subscriptions; simpl; intros *; by rewrite ?lookup_empty. Qed.

Lemma run_queue_ops_inv (ops : list QueueOp) (s : Subscriptions) :
  subscriptions_inv s → subscriptions_inv (run_queue_ops ops s).
Proof.
  revert s. induction ops as [|op ops IH]; intros s Hs; [done|].
  simpl. apply IH. by apply queue_step_inv.
Qed.

Lemma reachable_inv (ops : list QueueOp) :
  subscriptions_inv (run_queue_ops ops no_subscriptions).
Proof. apply run_queue_ops_inv, no_subscriptions_inv. Qed.

Lemma publish_unsubscribed (c : string) (m : PyValue) (s : Subscriptions) :
  subscriptions_inv s → pending s !! c = None → publish c m s = s.
Proof.
  intros Hinv Hnone. unfold publish.
  destruct (listeners s !! c) as [queues|] eqn:El; [|done].
  assert (queues = ∅) as ->.
  { destruct (channel_queue s !! c) as [q|] eqn:Ec.
    - destruct (inv_queue s Hinv c q Ec) as (_ & [l Hl] & _).
      rewrite pending_lookup, Ec in Hnone. simpl in Hnone. congruence.
    - pose proof (inv_unsubscribed s Hinv c Ec) as Hq. by rewrite El in Hq. }
  rewrite elements_empty. by destruct s.
Qed.

(** X6: after any sequence of subscribe, unsubscribe, publish, get and clear
    calls, [publish(channel, message)] appends the message once to the
    queue of [channel] and changes the queue of no other channel; when
    [channel] has no queue (never subscribed, or unsubscribed since) the
    call changes nothing at all: the message is dropped. *)
Theorem publish_delivers_once (ops : list QueueOp) (c : string) (m : PyValue) :
  let s := run_queue_ops ops no_subscriptions in
  pending (publish c m s) = alter (λ l, l ++ [m]) c (pending s)
  ∧ (∀ l, pending s !! c = Some l → pending (publish c m s) !! c = Some (l ++ [m]))
  ∧ (∀ c', c' ≠ c → pending (publish c m s) !! c' = pending s !! c')
  ∧ (pending s !! c = None → publish c m s = s).
Proof.
  intros s. pose proof (reachable_inv ops) as Hinv. fold s in Hinv.
  rewrite (publish_pending c m s Hinv). split; [done|]. split; [|split].
  - intros l Hl. by rewrite lookup_alter_eq, Hl.
  - intros c' Hne. by rewrite lookup_alter_ne.
  - by apply publish_unsubscribed.
Qed.

Lemma subscribe_pending (c c' : string) (s : Subscriptions) :
  subscriptions_inv s →
  pending (subscribe c s) !! c' =
    if decide (c = c') then Some (default [] (pending s !! c)) else pending s !! c'.
Proof.
  intros Hinv. rewrite !pending_lookup. unfold subscribe.
  destruct (channel_queue s !! c) as [q|] eqn:Ec; simpl.
  - case_decide as Hc; [subst c'|done]. rewrite Ec. simpl.
    destruct (inv_queue s Hinv c q Ec) as (_ & [l Hl] & _). by rewrite Hl.
  - case_decide as Hc; [subst c'|].
    + rewrite !lookup_insert_eq. simpl. by rewrite lookup_insert_eq.
    + rewrite lookup_insert_ne by done.
      destruct (channel_queue s !! c') as [q'|] eqn:Ec'; simpl; [|done].
      destruct (inv_queue s Hinv c' q' Ec') as (Hlt & _ & _).
      rewrite lookup_insert_ne; [done|lia].
Qed.

Lemma unsubscribe_pending (c : string) (s : Subscriptions) :
  pending (unsubscribe c s) = delete c (pending s).
Proof.
  apply map_eq. intros c'. rewrite lookup_delete, !pending_lookup. unfold unsubscribe.
  destruct (channel_queue s !! c) as [q|] eqn:Ec; simpl.
  - case_decide as Hc; [subst c'|].
    + by rewrite lookup_delete_eq.
    + by rewrite lookup_delete_ne.
  - case_decide as Hc; [subst c'|done]. by rewrite Ec.
Qed.

(** X7: [subscribe] twice is [subscribe] once, on every state. After any
    sequence of calls, [subscribe] keeps the items waiting on a channel
    that has a queue and gives an empty queue to one that has none,
    touching no other channel; [unsubscribe] removes the queue of the
    channel with the items waiting on it, so that subscribing again starts
    from an empty queue; [unsubscribe] of a channel without a queue
    changes nothing. *)
Theorem subscribe_unsubscribe_queues (ops : list QueueOp) (s0 : Subscriptions)
    (c c' : string) :
  let s := run_queue_ops ops no_subscriptions in
  subscribe c (subscribe c s0) = subscribe c s0
  ∧ pending (subscribe c s) !! c' =
      (if decide (c = c') then Some (default [] (pending s !! c)) else pending s !! c')
  ∧ pending (unsubscribe c s0) = delete c (pending s0)
  ∧ pending (subscribe c (unsubscribe c s)) !! c = Some []
  ∧ (pending s !! c = None → unsubscribe c s = s).
Proof.
  intros s. pose proof (reachable_inv ops) as Hinv. fold s in Hinv.
  split; [|split; [|split; [|split]]].
  - destruct (channel_queue s0 !! c) as [q|] eqn:Ec.
    + assert (subscribe c s0 =
              mkSubscriptions (queue_items s0) (channel_queue s0)
                (<[c := default ∅ (listeners s0 !! c) ∪ {[q]}]> (listeners s0))
                (fresh_queue s0)) as -> by (unfold subscribe; by rewrite Ec).
      unfold subscribe. simpl. rewrite Ec, lookup_insert_eq, insert_insert_eq. simpl.
      do 2 f_equal. set_solver.
    + assert (subscribe c s0 =
              mkSubscriptions (<[fresh_queue s0 := []]> (queue_items s0))
                (<[c := fresh_queue s0]> (channel_queue s0))
                (<[c := default ∅ (listeners s0 !! c) ∪ {[fresh_queue s0]}]> (listeners s0))
                (S (fresh_queue s0))) as -> by (unfold subscribe; by rewrite Ec).
      unfold subscribe. simpl. rewrite !lookup_insert_eq, insert_insert_eq. simpl.
      do 2 f_equal. set_solver.
  - by apply subscribe_pending.
  - apply unsubscribe_pending.
  - rewrite subscribe_pending by by apply unsubscribe_inv.
    rewrite decide_True by done. by rewrite unsubscribe_pending, lookup_delete_eq.
  - intros Hnone. unfold unsubscribe.
    destruct (channel_queue s !! c) as [q|] eqn:Ec; [|done].
    destruct (inv_queue s Hinv c q Ec) as (_ & [l Hl] & _).
    rewrite pending_lookup, Ec in Hnone. simpl in Hnone. congruence.
Qed.

Lemma queue_get_pending (c : string) (s : Subscriptions) :
  subscriptions_inv s →
  match pending s !! c with
  | Some (item :: rest) =>
      ∃ s', queue_get c s = Some (item, s') ∧ pending s' = <[c := rest]> (pending s)
  | _ => queue_get c s = None
  end.
Proof.
  intros Hinv. rewrite pending_lookup. unfold queue_get.
  destruct (channel_queue s !! c) as [q|] eqn:Ec; simpl; [|done].
  destruct (queue_items s !! q) as [[|item rest]|] eqn:Eq; [done| |done].
  eexists. split; [done|]. apply map_eq. intros c'.
  rewrite lookup_insert, !pending_lookup. simpl.
  case_decide as Hc; [subst c'|].
  - rewrite Ec. simpl. by rewrite lookup_insert_eq.
  - destruct (channel_queue s !! c') as [q'|] eqn:Ec'; simpl; [|done].
    rewrite lookup_insert_ne; [done|].
    intros ->. apply Hc. by apply (inv_distinct s Hinv c c' q').
Qed.

(** X8: published messages are received in publication order. After any
    sequence of calls, on a channel whose queue holds [l], [publish] of [m]
    followed by [receive] with a timeout that is [None] or positive returns
    the first item of [l ++ [m]] and leaves the rest on the queue ([m]
    itself when the queue was empty); this is what [queue.get()] takes off
    the queue object. With a timeout that is zero or negative, [receive]
    raises TimeoutError and [l ++ [m]] stays on the queue. On a channel
    without a queue, [receive] returns [None] also after the [publish]. *)
Theorem publish_receive_fifo (ops : list QueueOp) (b : MemoryBackend) (c : string)
    (m : PyValue) (t : option float) :
  let s := run_queue_ops ops no_subscriptions in
  (∀ l item rest, pending s !! c = Some l → l ++ [m] = item :: rest →
     no_time_left t = false →
     receive c t [] (set_channels (pending (publish c m s)) b)
       = (Done (Return item), set_channels (<[c := rest]> (pending (publish c m s))) b)
     ∧ ∃ s', queue_get c (publish c m s) = Some (item, s')
             ∧ pending s' = <[c := rest]> (pending (publish c m s)))
  ∧ (∀ l, pending s !! c = Some l →
     no_time_left t = true →
     (receive c t [] (set_channels (pending (publish c m s)) b)).1
       = Done (Raise TimeoutError)
     ∧ channels (receive c t [] (set_channels (pending (publish c m s)) b)).2 !! c
       = Some (l ++ [m]))
  ∧ (pending s !! c = None →
     receive c t [] (set_channels (pending (publish c m s)) b)
       = (Done (Return PyNone), set_channels (pending s) b)).
Proof.
  intros s. pose proof (reachable_inv ops) as Hinv. fold s in Hinv.
  split; [|split].
  - intros l item rest Hl Happ Hleft.
    assert (Hp : pending (publish c m s) !! c = Some (item :: rest)).
    { rewrite (publish_pending c m s Hinv), lookup_alter_eq, Hl. simpl. by rewrite Happ. }
    split.
    + unfold receive, get_message. simpl. rewrite Hp. unfold wait_for_get.
      by rewrite Hleft, app_nil_r.
    + pose proof (queue_get_pending c (publish c m s) (publish_inv c m s Hinv)) as Hget.
      by rewrite Hp in Hget.
  - intros l Hl Hleft.
    assert (Hp : pending (publish c m s) !! c = Some (l ++ [m])).
    { by rewrite (publish_pending c m s Hinv), lookup_alter_eq, Hl. }
    rewrite (Queues.receive_no_time_left _ c (l ++ [m]) [] t); [|done..].
    simpl. by rewrite lookup_insert_eq, app_nil_r.
  - intros Hnone. rewrite (publish_unsubscribed c m s Hinv Hnone).
    unfold receive, get_message. simpl. by rewrite Hnone.
Qed.

Lemma foldr_publish (m : PyValue) (l : list string) (s : Subscriptions) (c : string) :
  NoDup l → subscriptions_inv s →
  subscriptions_inv (foldr (λ channel, publish channel m) s l)
  ∧ pending (foldr (λ channel, publish channel m) s l) !! c =
      if decide (c ∈ l) then (λ x, x ++ [m]) <$> pending s !! c else pending s !! c.
Proof.
  intros Hl Hinv. induction Hl as [|a l Ha Hl IH]; cbn [foldr].
  - split; [done|]. rewrite decide_False; [done|]. by intros ?%elem_of_nil.
  - destruct IH as [Hinv' IH]. split; [by apply publish_inv|].
    rewrite (publish_pending a m _ Hinv').
    destruct (decide (a = c)) as [->|Hne].
    + rewrite lookup_alter_eq, IH, decide_False by done.
      rewrite decide_True; [done|]. by left.
    + rewrite lookup_alter_ne, IH by done.
      destruct (decide (c ∈ l)) as [Hin|Hout].
      * rewrite decide_True; [done|]. by right.
      * rewrite decide_False; [done|]. intros [->|?]%elem_of_cons; done.
Qed.

(** X9: after any sequence of queue calls, and whatever the group index is,
    [group_send(group, message)] appends the message once to the queue of
    every member channel of the group that has a queue, and changes the
    queue of no other channel (a member without a queue gets nothing); a
    group without members leaves everything as it is. *)
Theorem group_send_fans_out (ops : list QueueOp) (b : MemoryBackend) (g c : string)
    (m : PyValue) :
  let s := run_queue_ops ops no_subscriptions in
  pending (group_send g m b s) !! c =
    (if decide (c ∈ group_channels g b) then (λ l, l ++ [m]) <$> pending s !! c
     else pending s !! c)
  ∧ (group_channels g b = ∅ → group_send g m b s = s).
Proof.
  intros s. pose proof (reachable_inv ops) as Hinv. fold s in Hinv.
  unfold group_send, group_channels. split.
  - destruct (foldr_publish m (elements (_get_group_channels g b)) s c
                (NoDup_elements _) Hinv) as [_ Hp].
    rewrite Hp. destruct (decide (c ∈ _get_group_channels g b)) as [Hin|Hout].
    + rewrite decide_True; [done|]. by apply elem_of_elements.
    + rewrite decide_False; [done|]. by rewrite elem_of_elements.
  - intros ->. by rewrite elements_empty.
Qed.

End Queueing.

(** ** Message payloads *)

Module WireFormat.
Import Pipeline Dispatch Wire.

Lemma from_dict_to_items (now : float) (ty da se gr me pr tt cr : PyValue) :
  from_dict now (to_items (mkMessage ty da se gr me pr tt cr))
  = match pr with
    | PyPriority p => Return (mkMessage ty da se gr me (PyPriority p) tt cr)
    | PyStr name => Return (mkMessage ty da se gr me
                              (PyPriority (if bool_decide (name ∈ ["high"; "normal"; "low"])
                                           then priority_of_value name else NORMAL))
                              tt cr)
    | other => if unhashable other then Raise TypeError
               else Return (mkMessage ty da se gr me (PyPriority NORMAL) tt cr)
    end.
Proof.
  destruct pr as [| | | |name| | |[]|tag []]; try reflexivity.
  unfold from_dict, to_items, to_dict, message_priority. cbn.
  by destruct (bool_decide _).
Qed.

(** X10: [Message.from_dict] undoes [Message.to_dict] exactly on messages
    whose priority is a member of the enum. Whatever the other fields hold,
    and whatever the clock reads, [from_dict] of the dictionary [to_dict]
    returns gives back the same message when its priority is a member, and
    only then: none of the defaults of [from_dict] (type, priority,
    created_at) is used, and the priority is read back from its string
    value. A message whose priority is the value of a member (["high"]
    rather than HIGH) comes back with the member itself; a priority that
    cannot be hashed makes [from_dict] raise TypeError; in every other case
    the message comes back with all its other fields and a priority that is
    a member. *)
Theorem from_dict_to_dict (now : float) (m : Message) :
  to_dict m = PyDict (to_items m)
  ∧ (from_dict now (to_items m) = Return m ↔ ∃ p, priority m = PyPriority p)
  ∧ (∀ p, priority m = PyStr (priority_value p) →
       ∃ m', from_dict now (to_items m) = Return m' ∧ priority m' = PyPriority p)
  ∧ (unhashable (priority m) = true → from_dict now (to_items m) = Raise TypeError)
  ∧ (∀ m', from_dict now (to_items m) = Return m' →
       (∃ p, priority m' = PyPriority p)
       ∧ type m' = type m ∧ data m' = data m ∧ sender_id m' = sender_id m
       ∧ group m' = group m ∧ metadata m' = metadata m
       ∧ ttl_seconds m' = ttl_seconds m ∧ created_at m' = created_at m).
Proof.
  split; [reflexivity|].
  destruct m as [ty da se gr me pr tt cr]. rewrite from_dict_to_items.
  cbn [type data sender_id group metadata priority ttl_seconds created_at].
  split; [|split; [|split]].
  - split.
    + destruct pr as [| | | |name| | |p|tag []]; intros [=]; by eauto.
    + by intros [p ->].
  - intros p ->. eexists. split; [reflexivity|]. by destruct p.
  - by destruct pr as [| | | |name| | |p|tag []].
  - intros m'. destruct pr as [| | | |name| | |p|tag []]; intros [= <-]; by eauto 10.
Qed.

End WireFormat.

(** ** Frames through both consumers *)

Module FrameHandling.
Import Pipeline Dispatch Wire Chains.

Section Frames.

Variable S : Type.
Variable json_loads : string → Outcome Builtin PyValue.
Variable rate_limit_is_caught : bool.

Lemma run_stacks_unlinked (processes : list (Message → M S (option Message)))
    (m : Message) (w : World S) :
  CoreConsumer.run_stacks (unlinked processes) m w
  = match linked processes with
    | Some mw => call mw m w
    | None => (Return (Some m), w)
    end.
Proof.
  revert m w. induction processes as [|process rest IH]; intros m w; [reflexivity|].
  cbn [unlinked map CoreConsumer.run_stacks linked foldr call].
  destruct (process m w) as [[[m'|]|e] w']; try reflexivity.
  apply IH.
Qed.

Lemma run_stacks_app (s1 s2 : list (Middleware S)) (m : Message) (w : World S) :
  CoreConsumer.run_stacks (s1 ++ s2) m w
  = match CoreConsumer.run_stacks s1 m w with
    | (Return (Some m'), w') => CoreConsumer.run_stacks s2 m' w'
    | (Return None, w') => (Return None, w')
    | (Raise e, w') => (Raise e, w')
    end.
Proof.
  revert m w. induction s1 as [|mw s1 IH]; intros m w; [reflexivity|].
  rewrite <- app_comm_cons. cbn [CoreConsumer.run_stacks].
  destruct (call mw m w) as [[[m'|]|e] w']; try reflexivity.
  apply IH.
Qed.

Lemma try_body_unlinked (processes : list (Message → M S (option Message)))
    (receive : Message → M S unit) (raw_message : string) (w : World S) :
  CoreConsumer.try_body json_loads (CoreConsumer.mkConsumer (unlinked processes) receive)
    raw_message w
  = ChannelConsumer.try_body json_loads
      (ChannelConsumer.mkConsumer (linked processes) receive) raw_message w.
Proof.
  unfold CoreConsumer.try_body, ChannelConsumer.try_body.
  destruct (read_frame json_loads raw_message w) as [[[m|]|e] w']; try reflexivity.
  unfold CoreConsumer.dispatch, ChannelConsumer.dispatch.
  cbn [CoreConsumer.middleware_stacks ChannelConsumer.middleware_stack
       CoreConsumer.receive ChannelConsumer.receive].
  rewrite run_stacks_unlinked. by destruct (linked processes).
Qed.

(** X11: a list of stages without successors and the same stages linked
    into one chain run alike. The loop of the core consumer over
    [middleware_stacks] and the single stack of the fastapi_channel
    consumer give the same outcome and the same world for every message:
    each stage sees what the stage before it returned, a stage that returns
    [None] or raises ends the run before [receive], and with no stage at all
    both call [receive] on the message itself. *)
Theorem stacks_run_as_chain (processes : list (Message → M S (option Message)))
    (receive : Message → M S unit) (m : Message) (w : World S) :
  CoreConsumer.dispatch (CoreConsumer.mkConsumer (unlinked processes) receive) m w
  = ChannelConsumer.dispatch (ChannelConsumer.mkConsumer (linked processes) receive) m w.
Proof.
  unfold CoreConsumer.dispatch, ChannelConsumer.dispatch.
  cbn [CoreConsumer.middleware_stacks ChannelConsumer.middleware_stack
       CoreConsumer.receive ChannelConsumer.receive].
  rewrite run_stacks_unlinked. by destruct (linked processes).
Qed.

(** X12: the two [handle_message] differ only in the typed errors the core
    consumer catches. With the same stages and the same [receive], both
    consumers return the same outcome and world on every frame, except when
    the body of the [try] raises a typed error of a kind the core consumer's
    [except] clause names: then the core consumer does what [handle_error]
    of the fastapi_channel consumer does with that error, and returns. *)
Theorem consumers_differ_on_caught_errors
    (processes : list (Message → M S (option Message)))
    (receive : Message → M S unit) (raw_message : string) (w : World S) :
  let core := CoreConsumer.mkConsumer (unlinked processes) receive in
  let channel := ChannelConsumer.mkConsumer (linked processes) receive in
  match ChannelConsumer.try_body json_loads channel raw_message w with
  | (Raise (Typed e), w') =>
      CoreConsumer.handle_message json_loads rate_limit_is_caught core raw_message w
      = if CoreConsumer.caught rate_limit_is_caught (kind e)
        then ChannelConsumer.handle_error e w'
        else ChannelConsumer.handle_message json_loads channel raw_message w
  | _ =>
      CoreConsumer.handle_message json_loads rate_limit_is_caught core raw_message w
      = ChannelConsumer.handle_message json_loads channel raw_message w
  end.
Proof.
  cbv zeta. unfold CoreConsumer.handle_message, ChannelConsumer.handle_message.
  rewrite try_body_unlinked.
  destruct (ChannelConsumer.try_body json_loads _ raw_message w) as [[[]|[e|b]] w'];
    try reflexivity.
Qed.

(** X13: a pong frame only refreshes the heartbeat. For an object whose
    type is ["pong"], both consumers return normally after one reading of
    the clock, which becomes [last_heartbeat]; no stage and no [receive] is
    run, nothing is sent, and the byte and activity counters, the other
    connections and the application state stay as they were. *)
Theorem pong_frame_bypasses_pipeline (raw_message : string)
    (payload : list (string * PyValue)) (w : World S)
    (core : CoreConsumer.BaseConsumer S) (channel : ChannelConsumer.BaseConsumer S) :
  json_loads raw_message = Return (PyDict payload) →
  dict_get "type" payload = Some (PyStr "pong") →
  let w' := mkWorld (update_heartbeat (clock w (ticks w)) (own w)) (others w) (clock w)
              (Datatypes.S (ticks w)) (app w) in
  CoreConsumer.handle_message json_loads rate_limit_is_caught core raw_message w
  = (Return tt, w')
  ∧ ChannelConsumer.handle_message json_loads channel raw_message w = (Return tt, w').
Proof.
  intros Hloads Htype.
  unfold CoreConsumer.handle_message, ChannelConsumer.handle_message,
    CoreConsumer.try_body, ChannelConsumer.try_body, read_frame.
  by rewrite Hloads, Htype.
Qed.

(** X14: JSON that is no object raises AttributeError out of both
    consumers. When [json.loads] returns a value that is no dict, [data.get]
    fails: neither consumer answers the client, no stage and no [receive] is
    run, and the world (counters and clock included) is left untouched. *)
Theorem non_object_frame_raises (raw_message : string) (v : PyValue) (w : World S)
    (core : CoreConsumer.BaseConsumer S) (channel : ChannelConsumer.BaseConsumer S) :
  json_loads raw_message = Return v →
  match v with PyDict _ => False | _ => True end →
  CoreConsumer.handle_message json_loads rate_limit_is_caught core raw_message w
  = (Raise (Untyped AttributeError), w)
  ∧ ChannelConsumer.handle_message json_loads channel raw_message w
    = (Raise (Untyped AttributeError), w).
Proof.
  intros Hloads Hv.
  unfold CoreConsumer.handle_message, ChannelConsumer.handle_message,
    CoreConsumer.try_body, ChannelConsumer.try_body, read_frame.
  rewrite Hloads. by destruct v.
Qed.

(** X15: a priority that is a list or a dict raises TypeError. For an
    object that is no pong and whose ["priority"] cannot be hashed, the lookup
    in the enum's value map fails: both consumers raise TypeError to their
    caller with the world untouched, and [Message.from_dict] raises it for
    the same payload. *)
Theorem unhashable_priority_raises (raw_message : string)
    (payload : list (string * PyValue)) (v : PyValue) (w : World S)
    (core : CoreConsumer.BaseConsumer S) (channel : ChannelConsumer.BaseConsumer S)
    (now : float) :
  json_loads raw_message = Return (PyDict payload) →
  is_pong (default (PyStr "message") (dict_get "type" payload)) = false →
  dict_get "priority" payload = Some v →
  unhashable v = true →
  CoreConsumer.handle_message json_loads rate_limit_is_caught core raw_message w
  = (Raise (Untyped TypeError), w)
  ∧ ChannelConsumer.handle_message json_loads channel raw_message w
    = (Raise (Untyped TypeError), w)
  ∧ from_dict now payload = Raise TypeError.
Proof.
  intros Hloads Hpong Hpriority Hv.
  assert (message_priority payload = Raise TypeError) as Hraise.
  { unfold message_priority. rewrite Hpriority.
    by destruct v as [| | | | | | | |tag []]. }
  unfold CoreConsumer.handle_message, ChannelConsumer.handle_message,
    CoreConsumer.try_body, ChannelConsumer.try_body, read_frame, from_dict.
  rewrite Hloads, Hpong, Hraise, Hpriority.
  by destruct v as [| | | | | | | |tag []].
Qed.

(** X16: the priority of a payload falls back to NORMAL. When the
    ["priority"] of a payload can be hashed, the lookup of [handle_message]
    never fails: it is HIGH for ["high"], LOW for ["low"], and NORMAL for
    everything else, a missing key, [None], numbers, unknown strings and
    members of the enum included; when it cannot be hashed (a list, a dict,
    a set), the lookup raises TypeError, and so does [Message.from_dict].
    [Message.from_dict] keeps a priority that is a member of the enum
    already, and gives the priority of the lookup in every other case. *)
Theorem priority_falls_back_to_normal (payload : list (string * PyValue)) (now : float) :
  match dict_get "priority" payload with
  | Some v =>
      (unhashable v = false →
       ∃ p, message_priority payload = Return p
            ∧ (p = HIGH ↔ v = PyStr "high") ∧ (p = LOW ↔ v = PyStr "low"))
      ∧ (unhashable v = true →
         message_priority payload = Raise TypeError
         ∧ from_dict now payload = Raise TypeError)
      ∧ (∀ member, v = PyPriority member →
         ∃ m, from_dict now payload = Return m ∧ priority m = PyPriority member)
      ∧ (∀ p, (∀ member, v ≠ PyPriority member) →
         message_priority payload = Return p →
         ∃ m, from_dict now payload = Return m ∧ priority m = PyPriority p)
  | None =>
      message_priority payload = Return NORMAL
      ∧ ∃ m, from_dict now payload = Return m ∧ priority m = PyPriority NORMAL
  end.
Proof.
  unfold from_dict, message_priority.
  destruct (dict_get "priority" payload) as [v|]; [|split; [reflexivity|by eexists]].
  simpl (default _ _). split; [|split; [|split]].
  - intros Hv.
    destruct v as [| | | |s| | |member|tag []]; try done;
      try (exists NORMAL; by repeat split).
    cbn [py_in_names]. unfold priority_of_value.
    destruct (String.eqb_spec s "high") as [->|Hhigh].
    { exists HIGH. by repeat split. }
    destruct (String.eqb_spec s "low") as [->|Hlow].
    { exists LOW. by repeat split. }
    exists NORMAL. split; [by case_bool_decide|].
    split; split; (done || congruence).
  - intros Hv. by destruct v as [| | | | | | | |tag []].
  - intros member ->. by eexists.
  - intros p Hmember Hp.
    destruct v as [| | | |s| | |member|tag []];
      try (exfalso; by apply (Hmember member));
      rewrite Hp; eexists; split; reflexivity.
Qed.

(** X17: the logging stage is transparent. Removing a [LoggingMiddleware]
    from any place of the core consumer's stacks changes neither the outcome
    nor the world of a run, and in a chain the stage hands every message
    unchanged to its successor. *)
Theorem logging_stage_transparent (s1 s2 : list (Middleware S))
    (next_middleware : option (Middleware S)) (m : Message) (w : World S) :
  CoreConsumer.run_stacks (s1 ++ LoggingMiddleware None :: s2) m w
  = CoreConsumer.run_stacks (s1 ++ s2) m w
  ∧ call (LoggingMiddleware next_middleware) m w
    = match next_middleware with
      | Some next => call next m w
      | None => (Return (Some m), w)
      end.
Proof.
  split; [|reflexivity].
  rewrite !run_stacks_app.
  by destruct (CoreConsumer.run_stacks s1 m w) as [[[m'|]|e] w'].
Qed.

End Frames.

Lemma pong_frame_bypasses_pipeline_witness :
  CoreConsumer.handle_message frame_loads false CoreConsumer.sample_consumer pong_frame
    sample_world
  = (Return tt,
     mkWorld (mkConnection "channel.1.1" None ∅ CONNECTED 1700000000 60 0 0 [])
       (others sample_world) (clock sample_world) 1 tt)
  ∧ ChannelConsumer.handle_message frame_loads sample_channel_consumer pong_frame
      sample_world
    = (Return tt,
       mkWorld (mkConnection "channel.1.1" None ∅ CONNECTED 1700000000 60 0 0 [])
         (others sample_world) (clock sample_world) 1 tt).
Proof.
  exact (pong_frame_bypasses_pipeline unit frame_loads false pong_frame
           [("type", PyStr "pong")] sample_world CoreConsumer.sample_consumer
           sample_channel_consumer eq_refl eq_refl).
Defined.

Lemma non_object_frame_raises_witness :
  CoreConsumer.handle_message frame_loads false CoreConsumer.sample_consumer "[]"
    sample_world
  = (Raise (Untyped AttributeError), sample_world)
  ∧ ChannelConsumer.handle_message frame_loads sample_channel_consumer "[]" sample_world
    = (Raise (Untyped AttributeError), sample_world).
Proof.
  exact (non_object_frame_raises unit frame_loads false "[]" (PyList []) sample_world
           CoreConsumer.sample_consumer sample_channel_consumer eq_refl I).
Defined.

Lemma unhashable_priority_raises_witness :
  CoreConsumer.handle_message frame_loads false CoreConsumer.sample_consumer
    priority_frame sample_world
  = (Raise (Untyped TypeError), sample_world)
  ∧ ChannelConsumer.handle_message frame_loads sample_channel_consumer priority_frame
      sample_world
    = (Raise (Untyped TypeError), sample_world)
  ∧ from_dict 0 [("priority", PyList [])] = Raise TypeError.
Proof.
  exact (unhashable_priority_raises unit frame_loads false priority_frame
           [("priority", PyList [])] (PyList []) sample_world
           CoreConsumer.sample_consumer sample_channel_consumer 0%float
           eq_refl eq_refl eq_refl eq_refl).
Defined.

End FrameHandling.

(** ** The rate limiter across keys, and its stage *)

Module Limiter.
Import Pipeline RateLimit RateLimitStage.

Lemma allow_settings (key : string) (now : float) (l : TokenBucketRateLimiter) :
  rate (allow key now l).2 = rate l
  ∧ window (allow key now l).2 = window l
  ∧ burst (allow key now l).2 = burst l.
Proof.
  unfold allow. destruct (buckets l !! key) as [[last_check tokens]|]; [|done].
  destruct (refill l _) as [added|e]; [|done].
  by destruct (0 <? _)%Z.
Qed.

Lemma allow_other_key (key other : string) (now : float) (l : TokenBucketRateLimiter) :
  other ≠ key → buckets (allow key now l).2 !! other = buckets l !! other.
Proof.
  intros Hne. unfold allow.
  destruct (buckets l !! key) as [[last_check tokens]|].
  - destruct (refill l _) as [added|e]; [|done].
    destruct (0 <? _)%Z; simpl; by rewrite lookup_insert_ne.
  - simpl. by rewrite lookup_insert_ne.
Qed.

Lemma allow_in_range (key : string) (now : float) (l : TokenBucketRateLimiter) :
  (1 ≤ burst l)%Z → buckets_in_range l → buckets_in_range (allow key now l).2.
Proof.
  intros Hburst Hl other t n.
  destruct (allow_settings key now l) as (_ & _ & ->).
  destruct (decide (other = key)) as [->|Hne];
    [|rewrite allow_other_key by done; apply Hl].
  unfold allow. destruct (buckets l !! key) as [[last_check tokens]|] eqn:Hkey.
  - destruct (refill l _) as [added|e]; [|simpl; apply Hl].
    destruct (0 <? _)%Z eqn:Hpos; simpl; rewrite lookup_insert_eq; intros [= <- <-]; lia.
  - simpl. rewrite lookup_insert_eq. intros [= <- <-]. lia.
Qed.

Lemma allow_calls_snoc (calls : list (string * float)) (key : string) (now : float)
    (l : TokenBucketRateLimiter) :
  allow_calls (calls ++ [(key, now)]) l = (allow key now (allow_calls calls l)).2.
Proof. unfold allow_calls. by rewrite foldl_snoc. Qed.

Lemma allow_calls_settings (calls : list (string * float)) (l : TokenBucketRateLimiter) :
  rate (allow_calls calls l) = rate l
  ∧ window (allow_calls calls l) = window l
  ∧ burst (allow_calls calls l) = burst l.
Proof.
  induction calls as [|[key now] calls IH] using rev_ind; [done|].
  rewrite allow_calls_snoc.
  destruct (allow_settings key now (allow_calls calls l)) as (-> & -> & ->).
  exact IH.
Qed.

(** X18: every bucket stays between 0 and burst - 1. For a limiter made
    with a burst of at least 1, after any calls of [allow], for any keys and
    at any clock readings (going backwards, and calls that raise, included),
    each bucket holds at least 0 and at most [burst - 1] tokens, and the
    rate, the window and the burst are the ones the limiter was made with. *)
Theorem buckets_stay_in_range (rate_ window_seconds burst_size : Z)
    (calls : list (string * float)) :
  (1 ≤ burst_size)%Z →
  let l := allow_calls calls (new_limiter rate_ window_seconds burst_size) in
  buckets_in_range l
  ∧ rate l = rate_ ∧ window l = window_seconds ∧ burst l = burst_size.
Proof.
  intros Hburst. cbv zeta. split; [|apply allow_calls_settings].
  induction calls as [|[key now] calls IH] using rev_ind.
  - intros key t n. cbn. by rewrite lookup_empty.
  - rewrite allow_calls_snoc.
    apply allow_in_range; [|exact IH].
    by destruct (allow_calls_settings calls (new_limiter rate_ window_seconds burst_size))
      as (_ & _ & ->).
Qed.

(** X19: a call of [allow] touches the bucket of its key only. Whatever
    the answer, the buckets of all other keys are left as they were, so the
    calls of one client never spend or refill the tokens of another. *)
Theorem allow_keeps_other_buckets (key other : string) (now : float)
    (l : TokenBucketRateLimiter) :
  other ≠ key →
  buckets (allow key now l).2 !! other = buckets l !! other.
Proof. apply allow_other_key. Qed.

(** X20: the rate-limit stage passes a message unchanged or raises. It
    never alters or drops a message; while it is disabled, and for ping and
    pong messages, it returns the message without a call of [allow], so
    without spending a token; and in every case it leaves its settings and
    the buckets of all keys but the connection's own as they were. *)
Theorem rate_limit_stage_passes_or_raises (mw : RateLimitMiddleware) (now : float)
    (m : Message) (connection : Connection) :
  let r := rate_limit_process mw now m connection in
  (∀ m', r.1 = Return m' → m' = m)
  ∧ (enabled mw = false ∨ type m = PyStr "ping" ∨ type m = PyStr "pong" →
     r = (Return m, mw))
  ∧ enabled r.2 = enabled mw
  ∧ messages_per_window r.2 = messages_per_window mw
  ∧ window_seconds r.2 = window_seconds mw
  ∧ burst_size r.2 = burst_size mw
  ∧ (∀ key, key ≠ limiter_key connection →
       buckets (limiter r.2) !! key = buckets (limiter mw) !! key).
Proof.
  cbv zeta. unfold rate_limit_process.
  destruct (enabled mw) eqn:Hon; simpl negb; cbv iota;
    [|repeat split; try done; by intros ? [= <-]].
  destruct (py_in_names (type m) ["ping"; "pong"]) as [[]|e] eqn:Hin.
  - repeat split; try done. by intros ? [= <-].
  - pose proof (allow_other_key (limiter_key connection)) as Hother.
    destruct (allow (limiter_key connection) now (limiter mw)) as [[[]|e] l] eqn:Hallow;
      simpl in *.
    all: repeat split; try done.
    all: try (by intros ? [= <-]).
    all: try (intros [|[Hty|Hty]]; [done|rewrite Hty in Hin; done..]).
    all: intros key Hkey; specialize (Hother key now (limiter mw) Hkey);
      by rewrite Hallow in Hother.
  - repeat split; try done.
    intros [|[Hty|Hty]]; [done|rewrite Hty in Hin; done..].
Qed.

(** X21: a [RateLimitMiddleware] is always made disabled. [Settings]
    declares none of the four RATE_LIMIT names, so [getattr] gives the
    defaults whatever the settings hold: the stage is disabled, with 100
    messages per 60 seconds and a burst of 100, and its [process] returns
    every message as it is and keeps no bucket. *)
Theorem rate_limit_disabled_by_settings (int_of_str : string → Outcome Builtin Z)
    (settings : Settings) (now : float) (m : Message) (connection : Connection) :
  let made := mkRateLimitMiddleware false 100 60 100 (new_limiter 100 60 100) in
  init int_of_str settings = Return made
  ∧ rate_limit_process made now m connection = (Return m, made).
Proof. by split. Qed.

Lemma buckets_stay_in_range_witness :
  let l := allow_calls [("a", 0%float); ("b", 1%float); ("a", 0.5%float)]
             (new_limiter 100 60 2) in
  buckets_in_range l ∧ rate l = 100%Z ∧ window l = 60%Z ∧ burst l = 2%Z.
Proof.
  apply (buckets_stay_in_range 100 60 2
           [("a", 0%float); ("b", 1%float); ("a", 0.5%float)]).
  lia.
Defined.

Lemma allow_keeps_other_buckets_witness :
  buckets (allow "a" 1%float (allow "b" 0%float (new_limiter 100 60 2)).2).2 !! "b"
  = Some (0%float, 1%Z).
Proof.
  rewrite (allow_keeps_other_buckets "a" "b" 1%float
             (allow "b" 0%float (new_limiter 100 60 2)).2); [reflexivity|].
  intros [=].
Defined.

End Limiter.

(** ** Log records *)

Module LogRecords.
Import Backends Logging.

Lemma split_dot_cons (text : string) : ∃ part parts, split_dot text = part :: parts.
Proof.
  induction text as [|c rest (part & parts & IH)]; [by eexists _, _|].
  cbn [split_dot]. rewrite IH. destruct (Ascii.eqb c "."); by eexists _, _.
Qed.

Lemma after_last_dot_none (text : string) : has_dot text = false → after_last_dot text = text.
Proof.
  destruct text as [|c rest]; [done|]. cbn [has_dot after_last_dot].
  destruct (Ascii.eqb c "."); [done|]. by intros ->.
Qed.

Lemma split_dot_last (text : string) :
  last (split_dot text) = Some (after_last_dot text)
  ∧ (has_dot text = false → split_dot text = [text])
  ∧ (has_dot text = true → 1 < length (split_dot text)).
Proof.
  induction text as [|c rest (IHlast & IHnone & IHsome)]; [done|].
  cbn [split_dot has_dot after_last_dot].
  destruct (split_dot_cons rest) as (part & parts & Hrest).
  destruct (Ascii.eqb c ".") eqn:Hc.
  - rewrite Hrest in *. split; [|split; [done|simpl; lia]].
    rewrite last_cons, IHlast. simpl.
    destruct (has_dot rest) eqn:Hdot; [done|].
    by rewrite after_last_dot_none.
  - rewrite Hrest in *. destruct (has_dot rest) eqn:Hdot.
    + split; [|split; [done|intros _; simpl; apply IHsome; done]].
      rewrite last_cons. specialize (IHsome eq_refl).
      destruct parts as [|p parts]; [simpl in IHsome; lia|].
      rewrite (last_cons part) in IHlast.
      destruct (last (p :: parts)) eqn:Hlast; [done|]. by apply last_None in Hlast.
    + specialize (IHnone eq_refl) as [= -> ->]. by repeat split.
Qed.

Lemma inferred_component_last (logger_name : string) :
  inferred_component logger_name
  = if has_dot logger_name then after_last_dot logger_name else "unknown".
Proof.
  unfold inferred_component.
  destruct (split_dot_last logger_name) as (Hlast & Hnone & Hsome).
  destruct (has_dot logger_name).
  - rewrite decide_True by auto. by rewrite Hlast.
  - rewrite Hnone by done. by rewrite decide_False by (simpl; lia).
Qed.

(** X22: [ErrorContextFilter.filter] completes a record and never drops
    it. The filter always answers [True]; afterwards the record has a
    service and a component; every attribute the record already had,
    service and component included, keeps its value, and nothing but these
    two is added; a missing service becomes the filter's service name, and a
    missing component is the part of the logger name after its last dot, or
    ["unknown"] for a name without a dot. A second pass, by a filter of any
    service name, changes nothing. *)
Theorem filter_completes_record (service_name other_service : string) (record : LogRecord) :
  let record' := (filter service_name record).2 in
  (filter service_name record).1 = true
  ∧ name record' = name record
  ∧ (∀ key value, attributes record !! key = Some value →
       attributes record' !! key = Some value)
  ∧ (∀ key, key ≠ "service" → key ≠ "component" →
       attributes record' !! key = attributes record !! key)
  ∧ (attributes record !! "service" = None →
       attributes record' !! "service" = Some (PyStr service_name))
  ∧ (attributes record !! "component" = None →
       attributes record' !! "component"
       = Some (PyStr (if has_dot (name record) then after_last_dot (name record)
                      else "unknown")))
  ∧ filter other_service record' = (true, record').
Proof.
  cbv zeta. unfold filter. rewrite inferred_component_last.
  destruct record as [logger attrs]. cbn [name attributes fst snd].
  destruct (attrs !! "service") as [service|] eqn:Hservice;
    destruct (attrs !! "component") as [component|] eqn:Hcomponent;
    simplify_map_eq; repeat split; try done.
  all: intros key; intros;
    destruct (decide (key = "service")) as [Hs|Hs];
    destruct (decide (key = "component")) as [Hc|Hc]; by simplify_map_eq.
Qed.

(** X23: records of [get_logger] loggers get the logger's own name as
    component. For a name without a dot, the logger [get_logger(name)] is
    called ["core." + name], and the component the filter infers for its
    records is [name] itself, never ["unknown"]. *)
Theorem get_logger_component (logger : string) :
  has_dot logger = false →
  inferred_component (get_logger logger) = logger.
Proof.
  intros Hdot. rewrite inferred_component_last. unfold get_logger.
  change ("core." +:+ logger) with ("core" +:+ "." +:+ logger).
  rewrite ChannelNames.has_dot_app, ChannelNames.has_dot_app.
  rewrite (ChannelNames.after_last_dot_app "core" logger Hdot).
  reflexivity.
Qed.

Lemma get_logger_component_witness :
  inferred_component (get_logger "backends") = "backends".
Proof. exact (get_logger_component "backends" eq_refl). Defined.

End LogRecords.

(** ** Message expiry *)

Module Expiry.
Import Pipeline.

Lemma SFsub_self (x : spec_float) :
  match SFsub prec emax x x with
  | S754_zero _ | S754_nan => True
  | S754_infinity _ | S754_finite _ _ _ => False
  end.
Proof.
  destruct x as [[|]|[|]| |s m e]; try exact I.
  unfold SFsub. cbv zeta. rewrite Z.sub_diag. exact I.
Qed.

(** X24: a message is not expired at the instant it was created. With a
    TTL that is [None] or a number that is not negative, [is_expired]
    answers [False] when the clock still reads the float that [created_at]
    holds, whatever float that is: the age is then zero (or not a number),
    which exceeds no such TTL, a TTL of zero included. *)
Theorem not_expired_at_creation (m : Message) (created : float) :
  created_at m = PyFloat created →
  match ttl_seconds m with
  | PyNone | PyBool _ => True
  | PyInt n => (0 ≤ n)%Z
  | PyFloat ttl => PrimFloat.leb 0 ttl = true
  | PyStr _ | PyList _ | PyDict _ | PyPriority _ | PyObject _ _ => False
  end →
  is_expired created m = Return false.
Proof.
  intros Hcreated. unfold is_expired. rewrite Hcreated. cbn [age].
  pose proof (SFsub_self (Prim2SF created)) as Hage.
  change (SFsub prec emax) with SF64sub in Hage. rewrite <- sub_spec in Hage.
  destruct (ttl_seconds m) as [|b|n|ttl| | | | |]; try done.
  - intros _. unfold float_gt_int.
    destruct (Prim2SF (created - created)); by destruct b.
  - intros Hn. unfold float_gt_int.
    destruct (Prim2SF (created - created)); try done.
    f_equal. lia.
  - rewrite leb_spec, ltb_spec. unfold SFleb, SFltb.
    change (Prim2SF 0) with (S754_zero false).
    destruct (Prim2SF ttl) as [|[|]| |[|]]; try done;
      by destruct (Prim2SF (created - created)).
Qed.

Lemma not_expired_at_creation_witness :
  is_expired 1700000000
    (mkMessage (PyStr "chat") PyNone PyNone PyNone PyNone (PyPriority NORMAL) (PyFloat 30)
       (PyFloat 1700000000))
  = Return false.
Proof.
  exact (not_expired_at_creation
           (mkMessage (PyStr "chat") PyNone PyNone PyNone PyNone (PyPriority NORMAL)
              (PyFloat 30) (PyFloat 1700000000))
           1700000000 eq_refl eq_refl).
Defined.

End Expiry.
